(** * The caching subsystem of [my_python_project.utils.cache]

    A shallow embedding of [src/my_python_project/utils/cache.py]:
    the in-memory backend ([MemoryCache]), the file backend ([FileCache]),
    the cascading [MultiLevelCache], the [CacheManager] and the
    [cache_result] decorator, followed by the properties established
    about them.

    Methods are state transformers that may read the clock and may raise.
    One caller runs at a time, so the re-entrant locks of the classes
    do nothing and are left out.  [RedisCache], which needs a Redis client,
    is not part of the model. *)

From Stdlib Require Import ZArith Ascii String List Lia Bool.
From stdpp Require Import gmap strings list fin_maps.

Local Open Scope string_scope.

(** ** [hashlib.md5(...).hexdigest()]

    Both [FileCache._get_cache_file] and [_generate_cache_key] hash a key
    with MD5 and use the lower-case hexadecimal digest.  The digest is
    computed here as RFC 1321 defines it: a string is its sequence of bytes
    (what [str.encode()] yields for the UTF-8 text it holds), 32-bit words
    are integers reduced modulo [2^32]. *)
Module MD5.
Local Open Scope Z_scope.

Definition mask32 : Z := 4294967295.

Definition add32 (x y : Z) : Z := Z.land (x + y) mask32.

Definition not32 (x : Z) : Z := Z.lxor x mask32.

Definition rotl32 (x c : Z) : Z :=
  Z.land (Z.lor (Z.shiftl x c) (Z.shiftr x (32 - c))) mask32.

Definition shifts : list Z :=
  [7; 12; 17; 22; 7; 12; 17; 22; 7; 12; 17; 22; 7; 12; 17; 22;
   5; 9; 14; 20; 5; 9; 14; 20; 5; 9; 14; 20; 5; 9; 14; 20;
   4; 11; 16; 23; 4; 11; 16; 23; 4; 11; 16; 23; 4; 11; 16; 23;
   6; 10; 15; 21; 6; 10; 15; 21; 6; 10; 15; 21; 6; 10; 15; 21].

(** [sines !! i] is [floor (2^32 * |sin (i + 1)|)]. *)
Definition sines : list Z :=
  [3614090360; 3905402710; 606105819; 3250441966; 4118548399; 1200080426;
   2821735955; 4249261313; 1770035416; 2336552879; 4294925233; 2304563134;
   1804603682; 4254626195; 2792965006; 1236535329; 4129170786; 3225465664;
   643717713; 3921069994; 3593408605; 38016083; 3634488961; 3889429448;
   568446438; 3275163606; 4107603335; 1163531501; 2850285829; 4243563512;
   1735328473; 2368359562; 4294588738; 2272392833; 1839030562; 4259657740;
   2763975236; 1272893353; 4139469664; 3200236656; 681279174; 3936430074;
   3572445317; 76029189; 3654602809; 3873151461; 530742520; 3299628645;
   4096336452; 1126891415; 2878612391; 4237533241; 1700485571; 2399980690;
   4293915773; 2240044497; 1873313359; 4264355552; 2734768916; 1309151649;
   4149444226; 3174756917; 718787259; 3951481745].

Definition encode (s : string) : list Z :=
  map (fun a => Z.of_N (N_of_ascii a)) (list_ascii_of_string s).

(** Little-endian bytes of [x], [n] of them. *)
Fixpoint le_bytes (n : nat) (x : Z) : list Z :=
  match n with
  | O => []
  | S n' => Z.land x 255 :: le_bytes n' (Z.shiftr x 8)
  end.

Fixpoint of_le_bytes (bs : list Z) : Z :=
  match bs with
  | [] => 0
  | b :: bs' => Z.lor b (Z.shiftl (of_le_bytes bs') 8)
  end.

Definition pad (msg : list Z) : list Z :=
  let len := Z.of_nat (length msg) in
  msg ++ [128] ++ repeat 0 (Z.to_nat ((55 - len) mod 64))
      ++ le_bytes 8 (Z.land (8 * len) 18446744073709551615).

(** Cut a byte sequence into groups of [n] bytes. *)
Fixpoint groups (fuel n : nat) (bs : list Z) : list (list Z) :=
  match fuel, bs with
  | O, _ | _, [] => []
  | S fuel', _ => take n bs :: groups fuel' n (drop n bs)
  end.

Definition words_of_block (block : list Z) : list Z :=
  map of_le_bytes (groups 16 4 block).

Definition state : Type := Z * Z * Z * Z.

Definition round (M : list Z) (st : state) (i : nat) : state :=
  let '(a, b, c, d) := st in
  let zi := Z.of_nat i in
  let '(f, g) :=
    if zi <? 16 then (Z.lor (Z.land b c) (Z.land (not32 b) d), zi)
    else if zi <? 32 then
      (Z.lor (Z.land d b) (Z.land (not32 d) c), (5 * zi + 1) mod 16)
    else if zi <? 48 then (Z.lxor b (Z.lxor c d), (3 * zi + 5) mod 16)
    else (Z.lxor c (Z.lor b (not32 d)), (7 * zi) mod 16) in
  let f' := add32 (add32 (add32 f a) (nth i sines 0)) (nth (Z.to_nat g) M 0) in
  (d, add32 b (rotl32 f' (nth i shifts 0)), b, c).

Definition compress (st : state) (block : list Z) : state :=
  let '(a0, b0, c0, d0) := st in
  let '(a, b, c, d) := fold_left (round (words_of_block block)) (seq 0 64) st in
  (add32 a0 a, add32 b0 b, add32 c0 c, add32 d0 d).

Definition init : state := (1732584193, 4023233417, 2562383102, 271733878).

Definition digest (msg : list Z) : list Z :=
  let padded := pad msg in
  let '(a, b, c, d) :=
    fold_left compress (groups (length padded) 64 padded) init in
  le_bytes 4 a ++ le_bytes 4 b ++ le_bytes 4 c ++ le_bytes 4 d.

Definition hex_digit (x : Z) : ascii :=
  ascii_of_N (Z.to_N (if x <? 10 then 48 + x else 87 + x)).

Fixpoint hex (bs : list Z) : string :=
  match bs with
  | [] => EmptyString
  | b :: bs' =>
      String (hex_digit (Z.shiftr b 4)) (String (hex_digit (Z.land b 15)) (hex bs'))
  end.

Definition hexdigest (s : string) : string := hex (digest (encode s)).

End MD5.
Arguments MD5.hexdigest : simpl never.


(** ** Python values, exceptions and effects *)

(** The values a cache holds.  [PNone] is Python's [None]; it is what the
    [get] operations return for an absent key and also a value a caller may
    store.  [PObject] stands for an object that [pickle] can serialise but
    [json] cannot, [PLambda] for one that neither can. *)
Inductive pyval : Type :=
  | PNone
  | PBool (b : bool)
  | PInt (z : Z)
  | PStr (s : string)
  | PObject (id : nat)
  | PLambda (id : nat).

Definition is_not_None (v : pyval) : bool :=
  match v with PNone => false | _ => true end.

(** The exception classes of [exceptions.py] that the cache raises,
    [OverflowError], which [time.time() + ttl] raises, and [OtherException]
    for any other subclass of [Exception] (a [TypeError] from [json.dumps],
    an unpickling error, an [OSError] of the file system, a [KeyError], the
    failure of a mock). *)
Inductive exn : Type :=
  | CacheError
  | CacheKeyError
  | CacheSerializationError
  | OverflowError
  | OtherException.

Inductive result (A : Type) : Type :=
  | Ok (a : A)
  | Raise (e : exn).
Arguments Ok {A} a.
Arguments Raise {A} e.

(** [time.time()] reads the system clock.  The clock is an oracle giving the
    value of every read in turn; timestamps are integers in clock units and a
    ttl is a number of the same units. *)
Record Clock : Type := { oracle : nat -> Z; reads : nat }.

Definition tick (c : Clock) : Clock :=
  {| oracle := oracle c; reads := S (reads c) |}.

(** A method of an object of state [S]: it may read the clock, mutate the
    object and either return or raise.  What was mutated before an
    exception stays mutated. *)
Definition M (S A : Type) : Type := Clock * S -> result A * (Clock * S).

Definition ret {S A} (a : A) : M S A := fun w => (Ok a, w).

Definition raise {S A} (e : exn) : M S A := fun w => (Raise e, w).

Definition bind {S A B} (m : M S A) (f : A -> M S B) : M S B :=
  fun w => match m w with
           | (Ok a, w') => f a w'
           | (Raise e, w') => (Raise e, w')
           end.

(** [try: m  except Exception as e: h e]. *)
Definition try_except {S A} (m : M S A) (h : exn -> M S A) : M S A :=
  fun w => match m w with
           | (Ok a, w') => (Ok a, w')
           | (Raise e, w') => h e w'
           end.

Definition self {S} : M S S := fun w => (Ok (snd w), w).

Definition modify {S} (f : S -> S) : M S unit :=
  fun w => (Ok tt, (fst w, f (snd w))).

Definition time_time {S} : M S Z :=
  fun w => (Ok (oracle (fst w) (reads (fst w))), (tick (fst w), snd w)).

(** An [int] converts to a [float] when it rounds to a finite double: its
    absolute value is below [2**1024 - 2**970]. *)
Definition fits_float (n : Z) : bool := (Z.abs n <? 2 ^ 1024 - 2 ^ 970)%Z.

(** [time.time() + ttl] for an [int] ttl: the clock is read, then the ttl is
    converted to a float, which raises [OverflowError] when it does not
    fit. *)
Definition time_plus {S} (ttl : Z) : M S Z :=
  bind time_time
    (fun now => if fits_float ttl then ret (now + ttl)%Z else raise OverflowError).
Arguments fits_float : simpl never.

(** Run a method of a component [T] of the object. *)
Definition zoom {S T A} (view : S -> T) (update : T -> S -> S) (m : M T A)
  : M S A :=
  fun w => match m (fst w, view (snd w)) with
           | (r, (c, t)) => (r, (c, update t (snd w)))
           end.

Declare Scope py_scope.
Delimit Scope py_scope with py.
Notation "x <- m ;; k" := (bind m (fun x => k))
  (at level 100, m at next level, right associativity) : py_scope.
Notation "m ;; k" := (bind m (fun _ => k))
  (at level 100, right associativity) : py_scope.
Local Open Scope py_scope.

(** How a call passes the optional [ttl] argument of [set]. *)
Inductive ttl_arg : Type :=
  | Omitted
  | Given (ttl : option Z).

(** The interface [CacheBackend(ABC)]. *)
Module CacheBackend.
Class t (B : Type) : Type := {
  get : string -> M B pyval;
  set : string -> pyval -> ttl_arg -> M B unit;
  delete : string -> M B bool;
  exists_ : string -> M B bool;
  clear : M B unit;
  keys : M B (list string)
}.
End CacheBackend.
Arguments CacheBackend.get : simpl never.
Arguments CacheBackend.set : simpl never.
Arguments CacheBackend.delete : simpl never.
Arguments CacheBackend.exists_ : simpl never.
Arguments CacheBackend.clear : simpl never.
Arguments CacheBackend.keys : simpl never.

(** ** Python's [dict]: insertion-ordered, keys unique *)
Module Dict.
Section Dict.
Context {V : Type}.

Definition t : Type := list (string * V).

Fixpoint getitem (k : string) (d : t) : option V :=
  match d with
  | [] => None
  | (k', v) :: d' => if String.eqb k k' then Some v else getitem k d'
  end.

Definition contains (k : string) (d : t) : bool :=
  match getitem k d with Some _ => true | None => false end.

(** [d[k] = v]: an existing key keeps its position, a new one goes last. *)
Fixpoint setitem (k : string) (v : V) (d : t) : t :=
  match d with
  | [] => [(k, v)]
  | (k', v') :: d' =>
      if String.eqb k k' then (k, v) :: d' else (k', v') :: setitem k v d'
  end.

(** [d.pop(k, None)], and [del d[k]] for a key that is present. *)
Fixpoint pop (k : string) (d : t) : t :=
  match d with
  | [] => []
  | (k', v') :: d' => if String.eqb k k' then d' else (k', v') :: pop k d'
  end.

Definition keys (d : t) : list string := map fst d.

Definition len (d : t) : Z := Z.of_nat (length d).

End Dict.
Arguments t V : clear implicits.
End Dict.

(** ** [class MemoryCache] *)
Module MemoryCache.

(** A value of [_cache]: the dict with keys ['value'], ['created_at'] and
    ['expires_at']. *)
Record entry : Type := {
  value : pyval;
  created_at : Z;
  expires_at : option Z
}.

Record t : Type := {
  max_size : Z;
  default_ttl : option Z;
  _cache : Dict.t entry;
  _access_times : Dict.t Z
}.

Definition with_cache (f : Dict.t entry -> Dict.t entry) (c : t) : t :=
  {| max_size := max_size c; default_ttl := default_ttl c;
     _cache := f (_cache c); _access_times := _access_times c |}.

Definition with_access_times (f : Dict.t Z -> Dict.t Z) (c : t) : t :=
  {| max_size := max_size c; default_ttl := default_ttl c;
     _cache := _cache c; _access_times := f (_access_times c) |}.

Definition __init__ (max_size : Z) (default_ttl : option Z) : result t :=
  Ok {| max_size := max_size; default_ttl := default_ttl;
        _cache := []; _access_times := [] |}.

(** [expires_at is not None and time.time() > expires_at]: the clock is read
    only for an entry that has an expiry. *)
Definition _is_expired (cache_item : entry) : M t bool :=
  match expires_at cache_item with
  | None => ret false
  | Some e => now <- time_time ;; ret (e <? now)%Z
  end.

Definition delete (key : string) : M t bool :=
  c <- self ;;
  if Dict.contains key (_cache c) then
    modify (with_cache (Dict.pop key)) ;;
    modify (with_access_times (Dict.pop key)) ;;
    ret true
  else ret false.

(** [min(keys, key=...)] over a non-empty dict: the first key, in iteration
    order, whose value is smallest. *)
Fixpoint min_from (best : string * Z) (rest : list (string * Z)) : string :=
  match rest with
  | [] => fst best
  | (k, a) :: rest' =>
      if (a <? snd best)%Z then min_from (k, a) rest' else min_from best rest'
  end.

Definition _evict_lru : M t unit :=
  c <- self ;;
  match _access_times c with
  | [] => ret tt
  | first :: rest => delete (min_from first rest) ;; ret tt
  end.

Definition get (key : string) : M t pyval :=
  c <- self ;;
  match Dict.getitem key (_cache c) with
  | None => ret PNone
  | Some cache_item =>
      expired <- _is_expired cache_item ;;
      if expired then delete key ;; ret PNone
      else
        now <- time_time ;;
        modify (with_access_times (Dict.setitem key now)) ;;
        ret (value cache_item)
  end.

(** [set(key, value, ttl=_UNSET)]: an omitted [ttl] is the sentinel.  The
    capacity check, and with it the eviction, comes before the expiry is
    computed, so it has happened when the addition raises. *)
Definition set (key : string) (value : pyval) (ttl : ttl_arg) : M t unit :=
  c <- self ;;
  (if (max_size c <=? Dict.len (_cache c))%Z && negb (Dict.contains key (_cache c))
   then _evict_lru else ret tt) ;;
  expires_at <-
    match ttl with
    | Omitted =>
        match default_ttl c with
        | Some d => e <- time_plus d ;; ret (Some e)
        | None => ret None
        end
    | Given (Some n) => e <- time_plus n ;; ret (Some e)
    | Given None => ret None
    end ;;
  created <- time_time ;;
  modify (with_cache (Dict.setitem key
            {| value := value; created_at := created; expires_at := expires_at |})) ;;
  now <- time_time ;;
  modify (with_access_times (Dict.setitem key now)).

Definition exists_ (key : string) : M t bool :=
  c <- self ;;
  match Dict.getitem key (_cache c) with
  | None => ret false
  | Some cache_item =>
      expired <- _is_expired cache_item ;;
      if expired then delete key ;; ret false else ret true
  end.

Definition clear : M t unit :=
  modify (with_cache (fun _ => [])) ;;
  modify (with_access_times (fun _ => [])).

Fixpoint expired_keys (items : list (string * entry)) : M t (list string) :=
  match items with
  | [] => ret []
  | (key, cache_item) :: rest =>
      expired <- _is_expired cache_item ;;
      more <- expired_keys rest ;;
      ret (if expired then key :: more else more)
  end.

Fixpoint delete_each (ks : list string) : M t unit :=
  match ks with
  | [] => ret tt
  | key :: rest => delete key ;; delete_each rest
  end.

Definition keys : M t (list string) :=
  c <- self ;;
  expired <- expired_keys (_cache c) ;;
  delete_each expired ;;
  c' <- self ;;
  ret (Dict.keys (_cache c')).

#[global] Instance backend : CacheBackend.t t := {
  CacheBackend.get := get;
  CacheBackend.set := set;
  CacheBackend.delete := delete;
  CacheBackend.exists_ := exists_;
  CacheBackend.clear := clear;
  CacheBackend.keys := keys
}.

End MemoryCache.

(** ** [class FileCache] *)
Module FileCache.

(** The byte strings the serialisers produce: [pickle.dumps v],
    [json.dumps(v).encode()], or bytes that neither [pickle.loads] nor
    [json.loads] accepts. *)
Inductive bytes : Type :=
  | Pickled (v : pyval)
  | JsonText (v : pyval)
  | OtherBytes.

Definition pickle_dumps (v : pyval) : result bytes :=
  match v with
  | PLambda _ => Raise OtherException
  | _ => Ok (Pickled v)
  end.

Definition pickle_loads (data : bytes) : result pyval :=
  match data with
  | Pickled v => Ok v
  | _ => Raise OtherException
  end.

Definition json_dumps (v : pyval) : result bytes :=
  match v with
  | PNone | PBool _ | PInt _ | PStr _ => Ok (JsonText v)
  | PObject _ | PLambda _ => Raise OtherException
  end.

Definition json_loads (data : bytes) : result pyval :=
  match data with
  | JsonText v => Ok v
  | _ => Raise OtherException
  end.

(** What a cache file holds: the pickled envelope that [set] writes; a
    pickled dict that has no key ['value'], of which [get] reads only
    ['expires_at']; or anything else, for which [pickle.load] raises or
    yields an object that is no dict. *)
Inductive file : Type :=
  | Envelope (value : bytes) (created_at : Z) (expires_at : option Z)
  | NoValue (expires_at : option Z)
  | Unreadable.

(** How the file system fails the write of [set]: [open(path, 'wb')] raises
    and the path is left as it was, or the file is opened, and so truncated,
    and [pickle.dump] or the closing of the file raises. *)
Inductive write_fault : Type :=
  | OpenFails
  | DumpFails.

(** [cache_dir] is the directory: its [*.cache] files by stem.  [faults] is
    the part of the file system that decides whether a write succeeds: the
    stems of the paths that cannot be written, each with the way the write
    fails. *)
Record t : Type := {
  cache_dir : gmap string file;
  faults : gmap string write_fault;
  default_ttl : option Z;
  serializer : string
}.

Definition with_cache_dir (f : gmap string file -> gmap string file) (c : t) : t :=
  {| cache_dir := f (cache_dir c); faults := faults c;
     default_ttl := default_ttl c; serializer := serializer c |}.

(** The directory is created if it is missing, and kept as it is otherwise. *)
Definition __init__ (cache_dir : gmap string file)
    (faults : gmap string write_fault) (default_ttl : option Z)
    (serializer : string) : result t :=
  Ok {| cache_dir := cache_dir; faults := faults; default_ttl := default_ttl;
        serializer := serializer |}.

Definition lift {S A} (r : result A) : M S A := fun w => (r, w).

(** The stem of the file of [key]; the path is [cache_dir / (stem + ".cache")]. *)
Definition _get_cache_file (key : string) : string := MD5.hexdigest key.

Definition _serialize (value : pyval) : M t bytes :=
  c <- self ;;
  if String.eqb (serializer c) "pickle" then lift (pickle_dumps value)
  else if String.eqb (serializer c) "json" then lift (json_dumps value)
  else raise CacheSerializationError.

Definition _deserialize (data : bytes) : M t pyval :=
  c <- self ;;
  if String.eqb (serializer c) "pickle" then lift (pickle_loads data)
  else if String.eqb (serializer c) "json" then lift (json_loads data)
  else raise CacheSerializationError.

(** The dict that [pickle.load] yields, as far as [get] reads it:
    [cache_data['value']], if the key is there, and
    [cache_data.get('expires_at')]. *)
Record cache_data_t : Type := {
  value : option bytes;
  expires_at : option Z
}.

Definition _is_expired (cache_data : cache_data_t) : M t bool :=
  match expires_at cache_data with
  | None => ret false
  | Some e => now <- time_time ;; ret (e <? now)%Z
  end.

Definition unlink (cache_file : string) : M t unit :=
  modify (with_cache_dir (base.delete cache_file)).

Definition pickle_load (f : file) : M t cache_data_t :=
  match f with
  | Envelope value created_at expires_at =>
      ret {| value := Some value; expires_at := expires_at |}
  | NoValue expires_at => ret {| value := None; expires_at := expires_at |}
  | Unreadable => raise OtherException
  end.

(** [cache_data['value']], a [KeyError] when the key is missing. *)
Definition getitem_value (cache_data : cache_data_t) : M t bytes :=
  match value cache_data with
  | Some data => ret data
  | None => raise OtherException
  end.

Definition get (key : string) : M t pyval :=
  let cache_file := _get_cache_file key in
  c <- self ;;
  match cache_dir c !! cache_file with
  | None => ret PNone
  | Some f =>
      try_except
        (cache_data <- pickle_load f ;;
         expired <- _is_expired cache_data ;;
         if expired then unlink cache_file ;; ret PNone
         else data <- getitem_value cache_data ;; _deserialize data)
        (fun _ => unlink cache_file ;; raise CacheSerializationError)
  end.

(** [with open(cache_file, 'wb') as f: pickle.dump(cache_data, f)]. *)
Definition write (cache_file : string) (envelope : file) : M t unit :=
  c <- self ;;
  match faults c !! cache_file with
  | None => modify (with_cache_dir (<[cache_file := envelope]>))
  | Some OpenFails => raise OtherException
  | Some DumpFails =>
      modify (with_cache_dir (<[cache_file := Unreadable]>)) ;;
      raise OtherException
  end.

Definition set (key : string) (value : pyval) (ttl : option Z) : M t unit :=
  let cache_file := _get_cache_file key in
  c <- self ;;
  expires_at <-
    match ttl with
    | Some n => e <- time_plus n ;; ret (Some e)
    | None =>
        match default_ttl c with
        | Some d => e <- time_plus d ;; ret (Some e)
        | None => ret None
        end
    end ;;
  data <- _serialize value ;;
  created <- time_time ;;
  try_except
    (write cache_file (Envelope data created expires_at))
    (fun _ => raise CacheSerializationError).

Definition delete (key : string) : M t bool :=
  let cache_file := _get_cache_file key in
  c <- self ;;
  match cache_dir c !! cache_file with
  | Some _ => unlink cache_file ;; ret true
  | None => ret false
  end.

Definition exists_ (key : string) : M t bool :=
  v <- get key ;; ret (is_not_None v).

Definition clear : M t unit := modify (with_cache_dir (fun _ => ∅)).

(** The loop of [keys] over the stems that [glob('*.cache')] listed. *)
Fixpoint keys_from (stems : list string) : M t (list string) :=
  match stems with
  | [] => ret []
  | key :: rest =>
      live <- exists_ key ;;
      more <- keys_from rest ;;
      ret (if live then key :: more else more)
  end.

Definition keys : M t (list string) :=
  c <- self ;;
  keys_from (map fst (map_to_list (cache_dir c))).

#[global] Instance backend : CacheBackend.t t := {
  CacheBackend.get := get;
  CacheBackend.set key value ttl :=
    set key value (match ttl with Omitted => None | Given n => n end);
  CacheBackend.delete := delete;
  CacheBackend.exists_ := exists_;
  CacheBackend.clear := clear;
  CacheBackend.keys := keys
}.

End FileCache.

(** A backend whose every operation raises: the [Mock] with
    [side_effect = Exception(...)] of the resilience test. *)
Module FailingCache.

Definition t : Type := unit.

#[global] Instance backend : CacheBackend.t t := {
  CacheBackend.get _ := raise OtherException;
  CacheBackend.set _ _ _ := raise OtherException;
  CacheBackend.delete _ := raise OtherException;
  CacheBackend.exists_ _ := raise OtherException;
  CacheBackend.clear := raise OtherException;
  CacheBackend.keys := raise OtherException
}.

End FailingCache.

(** The backend objects a list of caches or a manager can hold, with the
    dynamic dispatch of their methods. *)
Inductive tier : Type :=
  | Memory (c : MemoryCache.t)
  | File (c : FileCache.t)
  | Failing.

Definition dispatch {A} (mem : M MemoryCache.t A) (file : M FileCache.t A)
    (failing : M FailingCache.t A) : M tier A :=
  fun w =>
    match snd w with
    | Memory c => match mem (fst w, c) with (r, (clk, c')) => (r, (clk, Memory c')) end
    | File c => match file (fst w, c) with (r, (clk, c')) => (r, (clk, File c')) end
    | Failing => match failing (fst w, tt) with (r, (clk, _)) => (r, (clk, Failing)) end
    end.

#[global] Instance tier_backend : CacheBackend.t tier := {
  CacheBackend.get key :=
    dispatch (CacheBackend.get key) (CacheBackend.get key) (CacheBackend.get key);
  CacheBackend.set key value ttl :=
    dispatch (CacheBackend.set key value ttl) (CacheBackend.set key value ttl)
             (CacheBackend.set key value ttl);
  CacheBackend.delete key :=
    dispatch (CacheBackend.delete key) (CacheBackend.delete key)
             (CacheBackend.delete key);
  CacheBackend.exists_ key :=
    dispatch (CacheBackend.exists_ key) (CacheBackend.exists_ key)
             (CacheBackend.exists_ key);
  CacheBackend.clear :=
    dispatch CacheBackend.clear CacheBackend.clear CacheBackend.clear;
  CacheBackend.keys :=
    dispatch CacheBackend.keys CacheBackend.keys CacheBackend.keys
}.

(** ** [class MultiLevelCache] *)
Module MultiLevelCache.
Section MultiLevelCache.
Context {B : Type} `{CacheBackend.t B}.

(** [self.caches], in priority order. *)
Definition t : Type := list B.

(** A method call on [self.caches[i]]; the object in the list is the one
    that is mutated. *)
Definition on_cache {A} (i : nat) (m : M B A) : M t A :=
  fun w =>
    match snd w !! i with
    | Some b =>
        match m (fst w, b) with
        | (r, (clk, b')) => (r, (clk, <[i := b']> (snd w)))
        end
    | None => (Raise OtherException, w)
    end.

(** [for j in range(i): try: self.caches[j].set(key, value)
     except Exception: pass]. *)
Fixpoint write_back (js : list nat) (key : string) (value : pyval) : M t unit :=
  match js with
  | [] => ret tt
  | j :: rest =>
      try_except (on_cache j (CacheBackend.set key value Omitted))
                 (fun _ => ret tt) ;;
      write_back rest key value
  end.

(** The loop of [get] over the indices still to visit; the [try] of an
    iteration yields [Some value] when it returns and [None] when the loop
    goes on. *)
Fixpoint get_from (indices : list nat) (key : string) : M t pyval :=
  match indices with
  | [] => ret PNone
  | i :: rest =>
      found <-
        try_except
          (value <- on_cache i (CacheBackend.get key) ;;
           if is_not_None value
           then write_back (seq 0 i) key value ;; ret (Some value)
           else ret None)
          (fun _ => ret None) ;;
      match found with
      | Some value => ret value
      | None => get_from rest key
      end
  end.

Definition get (key : string) : M t pyval :=
  caches <- self ;;
  get_from (seq 0 (length caches)) key.

Fixpoint set_from (indices : list nat) (key : string) (value : pyval)
    (ttl : option Z) : M t unit :=
  match indices with
  | [] => ret tt
  | i :: rest =>
      try_except (on_cache i (CacheBackend.set key value (Given ttl)))
                 (fun _ => ret tt) ;;
      set_from rest key value ttl
  end.

Definition set (key : string) (value : pyval) (ttl : option Z) : M t unit :=
  caches <- self ;;
  set_from (seq 0 (length caches)) key value ttl.

Fixpoint delete_from (indices : list nat) (key : string) (deleted : bool)
  : M t bool :=
  match indices with
  | [] => ret deleted
  | i :: rest =>
      deleted' <-
        try_except
          (r <- on_cache i (CacheBackend.delete key) ;;
           ret (if r then true else deleted))
          (fun _ => ret deleted) ;;
      delete_from rest key deleted'
  end.

Definition delete (key : string) : M t bool :=
  caches <- self ;;
  delete_from (seq 0 (length caches)) key false.

Definition exists_ (key : string) : M t bool :=
  v <- get key ;; ret (is_not_None v).

Fixpoint clear_from (indices : list nat) : M t unit :=
  match indices with
  | [] => ret tt
  | i :: rest =>
      try_except (on_cache i CacheBackend.clear) (fun _ => ret tt) ;;
      clear_from rest
  end.

Definition clear : M t unit :=
  caches <- self ;;
  clear_from (seq 0 (length caches)).

Fixpoint keys_from (indices : list nat) (all_keys : gset string)
  : M t (gset string) :=
  match indices with
  | [] => ret all_keys
  | i :: rest =>
      all_keys' <-
        try_except
          (ks <- on_cache i CacheBackend.keys ;;
           ret (all_keys ∪ list_to_set ks))
          (fun _ => ret all_keys) ;;
      keys_from rest all_keys'
  end.

Definition keys : M t (list string) :=
  caches <- self ;;
  all_keys <- keys_from (seq 0 (length caches)) ∅ ;;
  ret (elements all_keys).

#[global] Instance backend : CacheBackend.t t := {
  CacheBackend.get := get;
  CacheBackend.set key value ttl :=
    set key value (match ttl with Omitted => None | Given n => n end);
  CacheBackend.delete := delete;
  CacheBackend.exists_ := exists_;
  CacheBackend.clear := clear;
  CacheBackend.keys := keys
}.

End MultiLevelCache.
Arguments t B : clear implicits.
End MultiLevelCache.

(** ** [class CacheManager] *)
Module CacheManager.

Record stats_t : Type := {
  hits : Z;
  misses : Z;
  sets : Z;
  deletes : Z
}.

Definition zero_stats : stats_t :=
  {| hits := 0; misses := 0; sets := 0; deletes := 0 |}.

Record t (B : Type) : Type := {
  default_backend : B;
  backends : gmap string B;
  _stats : stats_t
}.
Arguments default_backend {B} _.
Arguments backends {B} _.
Arguments _stats {B} _.

Section CacheManager.
Context {B : Type} `{CacheBackend.t B}.

Definition with_default (f : B -> B) (m : t B) : t B :=
  {| default_backend := f (default_backend m); backends := backends m;
     _stats := _stats m |}.

Definition with_backends (f : gmap string B -> gmap string B) (m : t B) : t B :=
  {| default_backend := default_backend m; backends := f (backends m);
     _stats := _stats m |}.

Definition with_stats (f : stats_t -> stats_t) (m : t B) : t B :=
  {| default_backend := default_backend m; backends := backends m;
     _stats := f (_stats m) |}.

(** [default_backend or MemoryCache()]: the caller passes the backend. *)
Definition __init__ (default_backend : B) : t B :=
  {| default_backend := default_backend; backends := ∅; _stats := zero_stats |}.

Definition register_backend (name : string) (backend : B) : M (t B) unit :=
  modify (with_backends (<[name := backend]>)).

(** The object [get_backend] returns, as the place where it lives. *)
Inductive backend_ref : Type :=
  | Default
  | Named (name : string).

Definition get_backend (name : option string) : M (t B) backend_ref :=
  match name with
  | None => ret Default
  | Some n =>
      m <- self ;;
      match backends m !! n with
      | Some _ => ret (Named n)
      | None => raise CacheKeyError
      end
  end.

(** A method call on the backend that [get_backend] returned. *)
Definition call {A} (r : backend_ref) (op : M B A) : M (t B) A :=
  match r with
  | Default => zoom default_backend (fun b => with_default (fun _ => b)) op
  | Named n =>
      fun w =>
        match backends (snd w) !! n with
        | Some b =>
            match op (fst w, b) with
            | (res, (clk, b')) =>
                (res, (clk, with_backends (<[n := b']>) (snd w)))
            end
        | None => (Raise OtherException, w)
        end
  end.

Definition count_hit (s : stats_t) : stats_t :=
  {| hits := hits s + 1; misses := misses s; sets := sets s; deletes := deletes s |}.

Definition count_miss (s : stats_t) : stats_t :=
  {| hits := hits s; misses := misses s + 1; sets := sets s; deletes := deletes s |}.

Definition count_set (s : stats_t) : stats_t :=
  {| hits := hits s; misses := misses s; sets := sets s + 1; deletes := deletes s |}.

Definition count_delete (s : stats_t) : stats_t :=
  {| hits := hits s; misses := misses s; sets := sets s; deletes := deletes s + 1 |}.

Definition get (key : string) (backend : option string) : M (t B) pyval :=
  try_except
    (cache <- get_backend backend ;;
     value <- call cache (CacheBackend.get key) ;;
     (if is_not_None value then modify (with_stats count_hit)
      else modify (with_stats count_miss)) ;;
     ret value)
    (fun _ => modify (with_stats count_miss) ;; raise CacheError).

Definition set (key : string) (value : pyval) (ttl : option Z)
    (backend : option string) : M (t B) unit :=
  try_except
    (cache <- get_backend backend ;;
     call cache (CacheBackend.set key value (Given ttl)) ;;
     modify (with_stats count_set))
    (fun _ => raise CacheError).

Definition delete (key : string) (backend : option string) : M (t B) bool :=
  try_except
    (cache <- get_backend backend ;;
     result <- call cache (CacheBackend.delete key) ;;
     (if result : bool then modify (with_stats count_delete) else ret tt) ;;
     ret result)
    (fun _ => raise CacheError).

Definition clear (backend : option string) : M (t B) unit :=
  try_except
    (cache <- get_backend backend ;;
     call cache CacheBackend.clear)
    (fun _ => raise CacheError).

Definition stats : M (t B) stats_t :=
  m <- self ;; ret (_stats m).

Definition reset_stats : M (t B) unit :=
  modify (with_stats (fun _ => zero_stats)).

End CacheManager.
End CacheManager.

(** ** The decorator [cache_result] *)

(** [_generate_cache_key(func, args, kwargs)]: [args_str] is [str(args)] when
    there are positional arguments, [kwargs_str] is
    [str(sorted(kwargs.items()))] when there are keyword arguments. *)
Definition _generate_cache_key (func_module func_name : string)
    (args_str kwargs_str : option string) : string :=
  let key_parts :=
    ([func_module; func_name]
       ++ match args_str with Some s => [s] | None => [] end
       ++ match kwargs_str with Some s => [s] | None => [] end)%list in
  MD5.hexdigest (String.concat "|" key_parts).

Section cache_result.
Context {B : Type} `{CacheBackend.t B}.
(** [U] is the state that the decorated function works on, [Args] the
    arguments of a call. *)
Context {U Args : Type}.
Variable ttl : option Z.
Variable key_func : option (Args -> string).
Variable backend : option string.
Variable func : Args -> M U pyval.
(** The default key of a call, [_generate_cache_key(func, args, kwargs)]. *)
Variable default_key : Args -> string.

Definition on_manager {A} (m : M (CacheManager.t B) A)
  : M (CacheManager.t B * U) A :=
  zoom fst (fun mg s => (mg, snd s)) m.

Definition on_func_state {A} (m : M U A) : M (CacheManager.t B * U) A :=
  zoom snd (fun u s => (fst s, u)) m.

(** The [wrapper] that [cache_result(ttl, key_func, backend, cache_manager)]
    puts around [func]; the manager is part of the state. *)
Definition wrapper (args : Args) : M (CacheManager.t B * U) pyval :=
  let cache_key :=
    match key_func with
    | Some f => f args
    | None => default_key args
    end in
  cached <-
    try_except
      (cached_value <- on_manager (CacheManager.get cache_key backend) ;;
       ret (if is_not_None cached_value then Some cached_value else None))
      (fun _ => ret None) ;;
  match cached with
  | Some cached_value => ret cached_value
  | None =>
      result <- on_func_state (func args) ;;
      try_except (on_manager (CacheManager.set cache_key result ttl backend))
                 (fun _ => ret tt) ;;
      ret result
  end.

End cache_result.

(** [timed_cache(ttl)] is [cache_result(ttl=ttl)]: an integer ttl, the
    default key, the default backend. *)
Definition timed_cache {B} `{CacheBackend.t B} {U Args : Type} (ttl : Z)
    (func : Args -> M U pyval) (default_key : Args -> string)
  : Args -> M (CacheManager.t B * U) pyval :=
  wrapper (Some ttl) None None func default_key.

(** ** [lru_cache] *)

Module lru_cache.
Section lru_cache.
Context {U Args : Type}.
Variable func : Args -> M U pyval.
Variable default_key : Args -> string.

(** [cache = MemoryCache(max_size=maxsize)], made once, when the function is
    decorated; it is part of the state of the wrapper. *)
Definition cache (maxsize : Z) : result MemoryCache.t :=
  MemoryCache.__init__ maxsize None.

Definition on_cache {A} (m : M MemoryCache.t A) : M (MemoryCache.t * U) A :=
  zoom fst (fun c s => (c, snd s)) m.

Definition on_func_state {A} (m : M U A) : M (MemoryCache.t * U) A :=
  zoom snd (fun u s => (fst s, u)) m.

(** The wrapper has no [try]: it calls the cache directly, and stores with
    the ttl omitted. *)
Definition wrapper (args : Args) : M (MemoryCache.t * U) pyval :=
  let cache_key := default_key args in
  cached_value <- on_cache (MemoryCache.get cache_key) ;;
  if is_not_None cached_value then ret cached_value
  else
    result <- on_func_state (func args) ;;
    on_cache (MemoryCache.set cache_key result Omitted) ;;
    ret result.

End lru_cache.
End lru_cache.

(** ** Vocabulary of the properties *)

(** A [MemoryCache] as its constructor leaves it. *)
Definition fresh_memory (max_size : Z) (default_ttl : option Z) : MemoryCache.t :=
  {| MemoryCache.max_size := max_size; MemoryCache.default_ttl := default_ttl;
     MemoryCache._cache := []; MemoryCache._access_times := [] |}.

(** A clock that shows [now] at every read, and one that advances by one
    unit per read. *)
Definition frozen_clock (now : Z) : Clock :=
  {| oracle := fun _ => now; reads := 0 |}.

Definition ticking_clock : Clock :=
  {| oracle := fun n => Z.of_nat n; reads := 0 |}.

(** The value of the [n]-th read from now on. *)
Definition read_at (clk : Clock) (n : nat) : Z := oracle clk (n + reads clk).

(** [set(a,1); set(b,2); set(c,3); get(a); set(d,4)], then the four reads
    [get(b)], [get(a)], [get(c)], [get(d)]. *)
Definition lru_scenario (a b c d : string)
  : M MemoryCache.t (pyval * pyval * pyval * pyval) :=
  MemoryCache.set a (PInt 1) Omitted ;;
  MemoryCache.set b (PInt 2) Omitted ;;
  MemoryCache.set c (PInt 3) Omitted ;;
  MemoryCache.get a ;;
  MemoryCache.set d (PInt 4) Omitted ;;
  vb <- MemoryCache.get b ;;
  va <- MemoryCache.get a ;;
  vc <- MemoryCache.get c ;;
  vd <- MemoryCache.get d ;;
  ret (vb, va, vc, vd).

(** The operations of a [MemoryCache] as a caller issues them; a caller
    that runs a sequence of them catches what an operation raises and goes
    on. *)
Inductive op : Type :=
  | OpGet (key : string)
  | OpSet (key : string) (value : pyval) (ttl : ttl_arg)
  | OpDelete (key : string)
  | OpExists (key : string)
  | OpClear
  | OpKeys.

Definition call_op (o : op) : M MemoryCache.t unit :=
  match o with
  | OpGet key => MemoryCache.get key ;; ret tt
  | OpSet key value ttl => MemoryCache.set key value ttl
  | OpDelete key => MemoryCache.delete key ;; ret tt
  | OpExists key => MemoryCache.exists_ key ;; ret tt
  | OpClear => MemoryCache.clear
  | OpKeys => MemoryCache.keys ;; ret tt
  end.

(** One call of a sequence: the caller catches what the call raises and
    goes on with the cache as the call left it. *)
Definition run_op (o : op) : M MemoryCache.t unit :=
  try_except (call_op o) (fun _ => ret tt).

Fixpoint run_ops (ops : list op) : M MemoryCache.t unit :=
  match ops with
  | [] => ret tt
  | o :: rest => run_op o ;; run_ops rest
  end.

(** The two dicts of a [MemoryCache] have the same keys, in the same order,
    and no more entries than [m]; [m] is its [max_size]. *)
Definition memory_inv (m : Z) (c : MemoryCache.t) : Prop :=
  MemoryCache.max_size c = m /\
  Dict.keys (MemoryCache._cache c) = Dict.keys (MemoryCache._access_times c) /\
  (Dict.len (MemoryCache._cache c) <= m)%Z.

(** What the clock shows at its next read. *)
Definition now (clk : Clock) : Z := oracle clk (reads clk).

Definition stepping_clock (step : Z) : Clock :=
  {| oracle := fun n => (step * Z.of_nat n)%Z; reads := 0 |}.

(** The serialisers of a [FileCache] as functions of its [serializer]. *)
Definition dumps (serializer : string) (v : pyval) : result FileCache.bytes :=
  if String.eqb serializer "pickle" then FileCache.pickle_dumps v
  else if String.eqb serializer "json" then FileCache.json_dumps v
  else Raise CacheSerializationError.

Definition loads (serializer : string) (data : FileCache.bytes) : result pyval :=
  if String.eqb serializer "pickle" then FileCache.pickle_loads data
  else if String.eqb serializer "json" then FileCache.json_loads data
  else Raise CacheSerializationError.

(** A [FileCache] on an empty directory that can be written. *)
Definition fresh_file (default_ttl : option Z) (serializer : string) : FileCache.t :=
  {| FileCache.cache_dir := ∅; FileCache.faults := ∅;
     FileCache.default_ttl := default_ttl; FileCache.serializer := serializer |}.

(** The expiry an entry gets from the ttl in force at a [set] that starts
    at clock [clk]. *)
Definition expiry (clk : Clock) (ttl : option Z) : option Z :=
  match ttl with Some n => Some (now clk + n)%Z | None => None end.

(** The clock after the read, if any, that computes an expiry. *)
Definition after_expiry (clk : Clock) (ttl : option Z) : Clock :=
  match ttl with Some _ => tick clk | None => clk end.

(** The ttl in force makes [time.time() + ttl] raise [OverflowError]. *)
Definition overflows (ttl : option Z) : bool :=
  match ttl with Some n => negb (fits_float n) | None => false end.

(** The ttl in force for a [MemoryCache.set] and for a [FileCache.set]. *)
Definition memory_ttl (default_ttl : option Z) (ttl : ttl_arg) : option Z :=
  match ttl with Omitted => default_ttl | Given n => n end.

Definition file_ttl (default_ttl : option Z) (ttl : option Z) : option Z :=
  match ttl with Some n => Some n | None => default_ttl end.

Definition unlinked (key : string) (c : FileCache.t) : FileCache.t :=
  FileCache.with_cache_dir (base.delete (FileCache._get_cache_file key)) c.

(** The file cannot be decoded by the cache: [pickle.load] fails on it, it
    has no value, or its value is rejected by the serialiser of the cache. *)
Definition cannot_decode (c : FileCache.t) (f : FileCache.file) : Prop :=
  match f with
  | FileCache.Unreadable => True
  | FileCache.NoValue _ => True
  | FileCache.Envelope data _ _ =>
      exists e, loads (FileCache.serializer c) data = Raise e
  end.

(** The expiry that [get] reads from the file, when it reads one. *)
Definition file_expiry (f : FileCache.file) : option Z :=
  match f with
  | FileCache.Envelope _ _ expires_at => expires_at
  | FileCache.NoValue expires_at => expires_at
  | FileCache.Unreadable => None
  end.

(** The two-tier composites of one tier [h] and one tier that always
    raises, in either order. *)
Definition with_failing (failing_first : bool) (h : tier) : list tier :=
  if failing_first then [Failing; h] else [h; Failing].

(** The ttl in force when a tier is [set] with the ttl omitted. *)
Definition default_ttl_of (t : tier) : option Z :=
  match t with
  | Memory c => MemoryCache.default_ttl c
  | File c => FileCache.default_ttl c
  | Failing => None
  end.

(** A [get] gives no value: it returns [None] or raises. *)
Definition no_value (r : result pyval) : Prop :=
  match r with
  | Ok v => v = PNone
  | Raise _ => True
  end.

(** The backend that a call on a manager addresses, if it is registered,
    and the manager with that backend replaced. *)
Definition selected {B} (mg : CacheManager.t B) (backend : option string)
  : option B :=
  match backend with
  | None => Some (CacheManager.default_backend mg)
  | Some name => CacheManager.backends mg !! name
  end.

Definition put_selected {B} (backend : option string) (b : B)
    (mg : CacheManager.t B) : CacheManager.t B :=
  match backend with
  | None =>
      {| CacheManager.default_backend := b;
         CacheManager.backends := CacheManager.backends mg;
         CacheManager._stats := CacheManager._stats mg |}
  | Some name =>
      {| CacheManager.default_backend := CacheManager.default_backend mg;
         CacheManager.backends := <[name := b]> (CacheManager.backends mg);
         CacheManager._stats := CacheManager._stats mg |}
  end.

Definition counted {B} (f : CacheManager.stats_t -> CacheManager.stats_t)
    (mg : CacheManager.t B) : CacheManager.t B :=
  {| CacheManager.default_backend := CacheManager.default_backend mg;
     CacheManager.backends := CacheManager.backends mg;
     CacheManager._stats := f (CacheManager._stats mg) |}.

(** The key under which the wrapper caches a call. *)
Definition cache_key_of {Args} (key_func : option (Args -> string))
    (default_key : Args -> string) (args : Args) : string :=
  match key_func with
  | Some f => f args
  | None => default_key args
  end.

(** What the wrapper does when it runs the function: the result of the
    function is the result of the call, whatever the store does. *)
Definition run_and_store {B} `{CacheBackend.t B} {U Args : Type}
    (ttl : option Z) (key_func : option (Args -> string))
    (backend : option string) (func : Args -> M U pyval)
    (default_key : Args -> string) (args : Args)
    (clk1 : Clock) (mg1 : CacheManager.t B) (u : U)
  : result pyval * (Clock * (CacheManager.t B * U)) :=
  match func args (clk1, u) with
  | (Raise e, (clk2, u2)) => (Raise e, (clk2, (mg1, u2)))
  | (Ok res, (clk2, u2)) =>
      match CacheManager.set (cache_key_of key_func default_key args) res ttl
              backend (clk2, mg1) with
      | (_, (clk3, mg3)) => (Ok res, (clk3, (mg3, u2)))
      end
  end.

(** A function that counts its calls in its state and returns [v]. *)
Definition counting (v : pyval) : unit -> M nat pyval :=
  fun _ => modify S ;; ret v.

(** An expiry has passed at the next read of the clock. *)
Definition expired_at (expires_at : option Z) (clk : Clock) : bool :=
  match expires_at with
  | Some e => (e <? now clk)%Z
  | None => false
  end.

(** No [get] of the key, whenever it is made, gives a value. *)
Definition absent_at {B} `{CacheBackend.t B} (k : string) (b : B) : Prop :=
  forall later, no_value (fst (CacheBackend.get k (later, b))).

(** A backend type on which a stored [None] reads as no value: after a
    [set(k, None)] that returns, no [get(k)] gives a value. *)
Definition none_is_no_value (B : Type) `{CacheBackend.t B} : Prop :=
  forall (b : B) k ttl clk,
    fst (CacheBackend.set k PNone ttl (clk, b)) = Ok tt ->
    absent_at k (snd (snd (CacheBackend.set k PNone ttl (clk, b)))).

(** A [set(k, None)], whether it returns or raises, brings no value: a key
    that gave no value before gives none after. *)
Definition none_adds_no_value (B : Type) `{CacheBackend.t B} : Prop :=
  forall (b : B) k ttl clk,
    absent_at k b ->
    absent_at k (snd (snd (CacheBackend.set k PNone ttl (clk, b)))).

(** A [get] that gives no value leaves a backend that gives none. *)
Definition no_value_is_stable (B : Type) `{CacheBackend.t B} : Prop :=
  forall (b : B) k clk,
    no_value (fst (CacheBackend.get k (clk, b))) ->
    absent_at k (snd (snd (CacheBackend.get k (clk, b)))).

(** A tier takes a [set(k, None, ttl)]: its own [set] returns, or the tier
    gives no value for the key as it is.  (A tier whose [set] raises keeps
    what it held.) *)
Definition takes_none {B} `{CacheBackend.t B} (k : string) (ttl : option Z)
    (b : B) : Prop :=
  forall clk,
    fst (CacheBackend.set k PNone (Given ttl) (clk, b)) = Ok tt \/ absent_at k b.

(** An operation returns normally and re-establishes the invariant. *)
Definition keeps_inv (m : Z) {A} (op : M MemoryCache.t A) : Prop :=
  forall clk c, memory_inv m c ->
    exists a clk' c', op (clk, c) = (Ok a, (clk', c')) /\ memory_inv m c'.

(** An operation leaves a cache that has the property, whether it returns
    or raises. *)
Definition upholds (P : MemoryCache.t -> Prop) {A} (op : M MemoryCache.t A)
  : Prop :=
  forall clk c, P c -> P (snd (snd (op (clk, c)))).



(** A list of pairs that is a Python dict: no key occurs twice. *)
Definition is_dict {V} (d : Dict.t V) : Prop := NoDup (Dict.keys d).

(** The two dicts of a [MemoryCache] are dicts with the same keys. *)
Definition memory_wf (c : MemoryCache.t) : Prop :=
  is_dict (MemoryCache._cache c)
  /\ Dict.keys (MemoryCache._cache c) = Dict.keys (MemoryCache._access_times c).

(** Two memory caches hold the same entry and the same access time under
    every key but [k]. *)
Definition same_except (k : string) (c c' : MemoryCache.t) : Prop :=
  forall k', k' <> k ->
    Dict.getitem k' (MemoryCache._cache c') = Dict.getitem k' (MemoryCache._cache c)
    /\ Dict.getitem k' (MemoryCache._access_times c')
       = Dict.getitem k' (MemoryCache._access_times c).

(** An entry of [_cache] has not expired at time [t]. *)
Definition live_at (t : Z) (p : string * MemoryCache.entry) : bool :=
  match MemoryCache.expires_at (snd p) with
  | Some e => negb (e <? t)%Z
  | None => true
  end.

(** The state that every operation of a memory cache built with
    [max_size = m] keeps: the dicts are dicts with the same keys, and hold
    at most [max 1 m] entries. *)
Definition memory_ok (m : Z) (c : MemoryCache.t) : Prop :=
  MemoryCache.max_size c = m
  /\ memory_wf c
  /\ (Dict.len (MemoryCache._cache c) <= Z.max 1 m)%Z.

Definition keeps_ok (m : Z) {A} (op : M MemoryCache.t A) : Prop :=
  forall clk c, memory_ok m c ->
    exists a clk' c', op (clk, c) = (Ok a, (clk', c')) /\ memory_ok m c'.

(** A memory cache with [key] removed from both dicts, and the cache that
    [_evict_lru] leaves. *)
Definition popped (key : string) (c : MemoryCache.t) : MemoryCache.t :=
  MemoryCache.with_access_times (Dict.pop key)
    (MemoryCache.with_cache (Dict.pop key) c).

Definition evicted (c : MemoryCache.t) : MemoryCache.t :=
  match MemoryCache._access_times c with
  | [] => c
  | first :: rest =>
      let lru_key := MemoryCache.min_from first rest in
      if Dict.contains lru_key (MemoryCache._cache c) then popped lru_key c else c
  end.

(** The cache after the capacity check of [set(key, ...)]. *)
Definition made_room (key : string) (c : MemoryCache.t) : MemoryCache.t :=
  if (MemoryCache.max_size c <=? Dict.len (MemoryCache._cache c))%Z
     && negb (Dict.contains key (MemoryCache._cache c))
  then evicted c else c.

(** A string of 32 characters, each one of [0123456789abcdef]. *)
Definition is_hex_char (a : ascii) : bool :=
  existsb (Ascii.eqb a) (list_ascii_of_string "0123456789abcdef").

Definition is_hex32 (s : string) : bool :=
  Nat.eqb (String.length s) 32 && forallb is_hex_char (list_ascii_of_string s).

(** A tier holds an entry for [k], live or not. *)
Definition holds (k : string) (t : tier) : bool :=
  match t with
  | Memory c => Dict.contains k (MemoryCache._cache c)
  | File c =>
      bool_decide (is_Some (FileCache.cache_dir c !! FileCache._get_cache_file k))
  | Failing => false
  end.

(** A tier after its [delete(k)] and after its [clear()]. *)
Definition deleted (k : string) (t : tier) : tier :=
  match t with
  | Memory c =>
      Memory (if Dict.contains k (MemoryCache._cache c) then popped k c else c)
  | File c =>
      File (match FileCache.cache_dir c !! FileCache._get_cache_file k with
            | Some _ => unlinked k c
            | None => c
            end)
  | Failing => Failing
  end.

Definition cleared (t : tier) : tier :=
  match t with
  | Memory c =>
      Memory (MemoryCache.with_access_times (fun _ => [])
                (MemoryCache.with_cache (fun _ => []) c))
  | File c => File (FileCache.with_cache_dir (fun _ => ∅) c)
  | Failing => Failing
  end.

(** A tier keeps [v] under [k] for good when it is [set] with [ttl=None]
    passed explicitly: any memory cache, and a file cache without a default
    ttl whose serialiser accepts [v] and whose file system lets the file of
    [k] be written. *)
Definition keeps_explicit_none (k : string) (v : pyval) (t : tier) : Prop :=
  match t with
  | Memory _ => True
  | File c =>
      FileCache.default_ttl c = None
      /\ (exists data, dumps (FileCache.serializer c) v = Ok data)
      /\ FileCache.faults c !! FileCache._get_cache_file k = None
  | Failing => False
  end.

(** Every [get] of the key gives the value. *)
Definition always_gets {B} `{CacheBackend.t B} (k : string) (v : pyval) (b : B)
  : Prop :=
  forall later, fst (CacheBackend.get k (later, b)) = Ok v.

(** The memory tiers are dicts with the same keys. *)
Definition tier_wf (t : tier) : Prop :=
  match t with
  | Memory c => memory_wf c
  | File _ | Failing => True
  end.

(** Whether a [delete] reported a deletion. *)
Definition reported (r : result bool) : bool :=
  match r with
  | Ok deleted => deleted
  | Raise _ => false
  end.

(** A [keys] lists nothing: it returns the empty list or raises. *)
Definition lists_nothing (r : result (list string)) : Prop :=
  match r with
  | Ok ks => ks = []
  | Raise _ => True
  end.

(** ** The digest agrees with [hashlib] on sample inputs *)

Example md5_empty : MD5.hexdigest "" = "d41d8cd98f00b204e9800998ecf8427e".
Proof. vm_compute. reflexivity. Qed.

Example md5_a : MD5.hexdigest "a" = "0cc175b9c0f1b6a831c399e269772661".
Proof. vm_compute. reflexivity. Qed.

Example md5_abc : MD5.hexdigest "abc" = "900150983cd24fb0d6963f7d28e17f72".
Proof. vm_compute. reflexivity. Qed.

Example md5_two_blocks :
  MD5.hexdigest
    "xxxxxxxxxxxxxxxxxxxxxxxxxxxxxxxxxxxxxxxxxxxxxxxxxxxxxxxxxxxxxxxxxxxxxx"
  = "7d56c0f83fd1e320d60ea2f13dfdeedd".
Proof. vm_compute. reflexivity. Qed.

(** ** Construction of a memory cache *)

(** C3, as stated, fails: with [max_size = 0] the constructor does not
    raise. *)
Lemma memory_init_zero_does_not_raise :
  ~ (exists e, MemoryCache.__init__ 0 None = Raise e).
Proof. intros [e He]. discriminate He. Qed.

(** C3, amended: the constructor of [MemoryCache] validates nothing; for
    every [max_size], non-positive ones included, and every [default_ttl] it
    returns an empty cache with these parameters. *)
Theorem memory_init_accepts_any_max_size (m : Z) (d : option Z) :
  MemoryCache.__init__ m d = Ok (fresh_memory m d).
Proof. reflexivity. Qed.

(** ** The LRU scenario *)

(** C4, as stated, fails when the clock does not advance: all access times
    tie, [min] takes the first key in iteration order, and that is [a]. *)
Lemma lru_scenario_frozen_clock :
  fst (lru_scenario "a" "b" "c" "d" (frozen_clock 0, fresh_memory 3 None))
  = Ok (PInt 2, PNone, PInt 3, PInt 4).
Proof. vm_compute. reflexivity. Qed.

Section LruScenario.
Variables a b c d : string.
Hypothesis distinct : NoDup [a; b; c; d].

Lemma distinct_eqb :
  String.eqb a b = false /\ String.eqb a c = false /\ String.eqb a d = false /\
  String.eqb b a = false /\ String.eqb b c = false /\ String.eqb b d = false /\
  String.eqb c a = false /\ String.eqb c b = false /\ String.eqb c d = false /\
  String.eqb d a = false /\ String.eqb d b = false /\ String.eqb d c = false.
Proof.
  repeat match goal with
         | H : NoDup (_ :: _) |- _ => apply NoDup_cons in H; destruct H
         end.
  repeat split; apply String.eqb_neq; intros ->; set_solver.
Qed.

(** C4, amended: the scenario ends as stated provided the access time that
    [set(b,2)] records (the fourth clock read) is earlier than the one
    [get(a)] records (the seventh) and not later than the one [set(c,3)]
    records (the sixth). *)
Theorem lru_scenario_evicts_b (clk : Clock) :
  (read_at clk 3 < read_at clk 6)%Z ->
  (read_at clk 3 <= read_at clk 5)%Z ->
  fst (lru_scenario a b c d (clk, fresh_memory 3 None))
  = Ok (PNone, PInt 1, PInt 3, PInt 4).
Proof.
  intros Hlt Hle.
  destruct distinct_eqb as (ab & ac & ad & ba & bc & bd & ca & cb & cd & da & db & dc).
  destruct clk as [o r]. unfold read_at in *. simpl in Hlt, Hle.
  apply Z.ltb_lt in Hlt. apply Z.ltb_ge in Hle.
  unfold lru_scenario, MemoryCache.set, MemoryCache.get, MemoryCache._evict_lru,
    MemoryCache.delete, MemoryCache._is_expired, Dict.contains,
    bind, ret, self, modify, time_time, tick, fresh_memory.
  simpl.
  repeat (rewrite ?String.eqb_refl, ?ab, ?ac, ?ad, ?ba, ?bc, ?bd, ?ca, ?cb, ?cd,
            ?da, ?db, ?dc, ?Hlt, ?Hle; simpl).
  reflexivity.
Qed.

End LruScenario.

Lemma lru_scenario_evicts_b_witness :
  fst (lru_scenario "a" "b" "c" "d" (ticking_clock, fresh_memory 3 None))
  = Ok (PNone, PInt 1, PInt 3, PInt 4).
Proof.
  apply lru_scenario_evicts_b; [compute_done|reflexivity|discriminate].
Defined.

(** ** The dicts of a memory cache stay in sync and bounded *)

Section DictFacts.
Context {V W : Type}.
Implicit Types (d : Dict.t V) (e : Dict.t W).

Lemma contains_keys d e k :
  Dict.keys d = Dict.keys e -> Dict.contains k d = Dict.contains k e.
Proof.
  unfold Dict.contains. revert e.
  induction d as [|[k1 v1] d IH]; intros [|[k2 v2] e] Hk; simpl in *;
    try discriminate; auto.
  injection Hk as -> Hk. destruct (String.eqb k k2); auto.
Qed.

Lemma keys_pop d e k :
  Dict.keys d = Dict.keys e -> Dict.keys (Dict.pop k d) = Dict.keys (Dict.pop k e).
Proof.
  revert e.
  induction d as [|[k1 v1] d IH]; intros [|[k2 v2] e] Hk; simpl in *;
    try discriminate; auto.
  injection Hk as -> Hk. destruct (String.eqb k k2); simpl; auto.
  f_equal. auto.
Qed.

Lemma keys_setitem d e k v w :
  Dict.keys d = Dict.keys e ->
  Dict.keys (Dict.setitem k v d) = Dict.keys (Dict.setitem k w e).
Proof.
  revert e.
  induction d as [|[k1 v1] d IH]; intros [|[k2 v2] e] Hk; simpl in *;
    try discriminate; auto.
  injection Hk as -> Hk. destruct (String.eqb k k2); simpl; f_equal; auto.
Qed.

Lemma keys_setitem_present d k v :
  Dict.contains k d = true -> Dict.keys (Dict.setitem k v d) = Dict.keys d.
Proof.
  unfold Dict.contains.
  induction d as [|[k1 v1] d IH]; simpl; [discriminate|].
  destruct (String.eqb_spec k k1) as [->|]; simpl; [reflexivity|].
  intros Hc. f_equal. auto.
Qed.

Lemma len_pop d k :
  Dict.contains k d = true -> Dict.len (Dict.pop k d) = (Dict.len d - 1)%Z.
Proof.
  unfold Dict.contains, Dict.len.
  induction d as [|[k1 v1] d IH]; simpl; [discriminate|].
  destruct (String.eqb k k1); simpl length; [lia|].
  intros Hc. specialize (IH Hc). lia.
Qed.

Lemma len_pop_le d k : (Dict.len (Dict.pop k d) <= Dict.len d)%Z.
Proof.
  unfold Dict.len.
  induction d as [|[k1 v1] d IH]; simpl; [lia|].
  destruct (String.eqb k k1); simpl length; lia.
Qed.

Lemma len_setitem d k v :
  Dict.len (Dict.setitem k v d)
  = if Dict.contains k d then Dict.len d else (Dict.len d + 1)%Z.
Proof.
  unfold Dict.contains, Dict.len.
  induction d as [|[k1 v1] d IH]; simpl; [reflexivity|].
  destruct (String.eqb k k1); simpl length; [reflexivity|].
  destruct (Dict.getitem k d); lia.
Qed.

End DictFacts.

(** [min] returns one of the keys it was given. *)
Lemma min_from_contains (best : string * Z) (rest : list (string * Z)) :
  Dict.contains (MemoryCache.min_from best rest) (best :: rest) = true.
Proof.
  revert best. induction rest as [|[k a] rest IH]; intros [kb ab]; simpl.
  - unfold Dict.contains. simpl. now rewrite String.eqb_refl.
  - destruct (a <? ab)%Z.
    + specialize (IH (k, a)). unfold Dict.contains in *. simpl in *.
      destruct (String.eqb _ kb); [reflexivity|]. exact IH.
    + specialize (IH (kb, ab)). unfold Dict.contains in *. simpl in *.
      destruct (String.eqb _ kb); [reflexivity|].
      destruct (String.eqb _ k); [reflexivity|]. exact IH.
Qed.

Section MemoryInvariant.
Variable m : Z.
Implicit Types (c : MemoryCache.t) (clk : Clock).

Lemma inv_pop c key :
  memory_inv m c ->
  memory_inv m (MemoryCache.with_access_times (Dict.pop key)
                  (MemoryCache.with_cache (Dict.pop key) c)).
Proof.
  intros (Hm & Hk & Hl). repeat split; simpl; auto using keys_pop.
  pose proof (len_pop_le (MemoryCache._cache c) key). lia.
Qed.

Lemma inv_touch c key now :
  memory_inv m c ->
  Dict.contains key (MemoryCache._cache c) = true ->
  memory_inv m (MemoryCache.with_access_times (Dict.setitem key now) c).
Proof.
  intros (Hm & Hk & Hl) Hc. repeat split; simpl; auto.
  rewrite keys_setitem_present; auto.
  now rewrite <- (contains_keys _ _ key Hk).
Qed.

Lemma inv_insert c key item now :
  memory_inv m c ->
  Dict.contains key (MemoryCache._cache c) = true
  \/ (Dict.len (MemoryCache._cache c) < m)%Z ->
  memory_inv m (MemoryCache.with_access_times (Dict.setitem key now)
                  (MemoryCache.with_cache (Dict.setitem key item) c)).
Proof.
  intros (Hm & Hk & Hl) Hc. repeat split; simpl; auto using keys_setitem.
  rewrite len_setitem. destruct (Dict.contains key (MemoryCache._cache c)); [lia|].
  destruct Hc; [discriminate|lia].
Qed.

(** What [delete] does, as an equation. *)
Lemma delete_eq key clk c :
  MemoryCache.delete key (clk, c)
  = if Dict.contains key (MemoryCache._cache c)
    then (Ok true, (clk, MemoryCache.with_access_times (Dict.pop key)
                            (MemoryCache.with_cache (Dict.pop key) c)))
    else (Ok false, (clk, c)).
Proof.
  unfold MemoryCache.delete, bind, self, modify, ret. simpl.
  destruct (Dict.contains key (MemoryCache._cache c)); reflexivity.
Qed.

Local Abbreviation keeps_inv := (keeps_inv m).

Lemma keeps_ret {A} (a : A) : keeps_inv (ret a).
Proof. intros clk c Hc. now exists a, clk, c. Qed.

Lemma keeps_bind {A B} (op : M MemoryCache.t A) (f : A -> M MemoryCache.t B) :
  keeps_inv op -> (forall a, keeps_inv (f a)) -> keeps_inv (bind op f).
Proof.
  intros Hop Hf clk c Hc. unfold bind.
  destruct (Hop clk c Hc) as (a & clk' & c' & -> & Hc').
  exact (Hf a clk' c' Hc').
Qed.

Lemma keeps_delete key : keeps_inv (MemoryCache.delete key).
Proof.
  intros clk c Hc. rewrite delete_eq.
  destruct (Dict.contains key (MemoryCache._cache c)); eauto 6 using inv_pop.
Qed.

(** Reading an expiry leaves the cache as it is. *)
Lemma is_expired_eq (item : MemoryCache.entry) clk c :
  exists b clk', MemoryCache._is_expired item (clk, c) = (Ok b, (clk', c)).
Proof.
  unfold MemoryCache._is_expired.
  destruct (MemoryCache.expires_at item); simpl; unfold bind, time_time, ret;
    simpl; eauto.
Qed.

Lemma getitem_contains {V} (d : Dict.t V) key v :
  Dict.getitem key d = Some v -> Dict.contains key d = true.
Proof. unfold Dict.contains. now intros ->. Qed.

Lemma keeps_get key : keeps_inv (MemoryCache.get key).
Proof.
  intros clk c Hc. unfold MemoryCache.get, bind at 1, self. simpl.
  destruct (Dict.getitem key (MemoryCache._cache c)) as [item|] eqn:Hget;
    [|now apply keeps_ret].
  unfold bind at 1.
  destruct (is_expired_eq item clk c) as (b & clk' & ->).
  destruct b.
  - apply keeps_bind; [apply keeps_delete|intros _; apply keeps_ret|exact Hc].
  - unfold bind, time_time, modify, ret. simpl.
    eauto 8 using inv_touch, getitem_contains.
Qed.

Lemma keeps_exists key : keeps_inv (MemoryCache.exists_ key).
Proof.
  intros clk c Hc. unfold MemoryCache.exists_, bind at 1, self. simpl.
  destruct (Dict.getitem key (MemoryCache._cache c)) as [item|] eqn:Hget;
    [|now apply keeps_ret].
  unfold bind at 1.
  destruct (is_expired_eq item clk c) as (b & clk' & ->).
  destruct b.
  - apply keeps_bind; [apply keeps_delete|intros _; apply keeps_ret|exact Hc].
  - now apply keeps_ret.
Qed.

Lemma keeps_clear : (0 <= m)%Z -> keeps_inv MemoryCache.clear.
Proof.
  intros Hm clk c (Hmax & _ & _).
  unfold MemoryCache.clear, bind, modify. simpl.
  do 3 eexists. split; [reflexivity|]. repeat split; simpl; auto.
Qed.

Lemma expired_keys_eq items clk c :
  exists ks clk', MemoryCache.expired_keys items (clk, c) = (Ok ks, (clk', c)).
Proof.
  revert clk. induction items as [|[key item] items IH]; intros clk; simpl.
  - unfold ret. eauto.
  - unfold bind at 1.
    destruct (is_expired_eq item clk c) as (b & clk1 & ->).
    unfold bind at 1. destruct (IH clk1) as (ks & clk2 & ->).
    unfold ret. eauto.
Qed.

Lemma keeps_delete_each ks : keeps_inv (MemoryCache.delete_each ks).
Proof.
  induction ks as [|key ks IH]; simpl; [apply keeps_ret|].
  apply keeps_bind; [apply keeps_delete|intros _; exact IH].
Qed.

Lemma keeps_keys : keeps_inv MemoryCache.keys.
Proof.
  intros clk c Hc. unfold MemoryCache.keys, bind at 1, self. simpl.
  unfold bind at 1.
  destruct (expired_keys_eq (MemoryCache._cache c) clk c) as (ks & clk1 & ->).
  apply keeps_bind; [apply keeps_delete_each| |exact Hc].
  intros _ clk2 c2 Hc2. unfold bind, self, ret. simpl. eauto.
Qed.

(** After the capacity check of [set] there is room for [key]. *)
Lemma evict_makes_room key clk c :
  (1 <= m)%Z -> memory_inv m c ->
  exists clk' c',
    (if (MemoryCache.max_size c <=? Dict.len (MemoryCache._cache c))%Z
        && negb (Dict.contains key (MemoryCache._cache c))
     then MemoryCache._evict_lru else ret tt) (clk, c) = (Ok tt, (clk', c'))
    /\ memory_inv m c'
    /\ MemoryCache.default_ttl c' = MemoryCache.default_ttl c
    /\ (Dict.contains key (MemoryCache._cache c') = true
        \/ (Dict.len (MemoryCache._cache c') < m)%Z).
Proof.
  intros Hm Hc. pose proof Hc as (Hmax & Hk & Hl). rewrite Hmax.
  destruct (Z.leb_spec m (Dict.len (MemoryCache._cache c))) as [Hfull|Hroom];
    simpl; [|unfold ret; eauto 8].
  destruct (Dict.contains key (MemoryCache._cache c)) eqn:Hin; simpl;
    [unfold ret; eauto 8|].
  unfold MemoryCache._evict_lru, bind at 1, self. simpl.
  destruct (MemoryCache._access_times c) as [|first rest] eqn:Hat.
  - exfalso. destruct (MemoryCache._cache c); [|discriminate Hk].
    unfold Dict.len in Hfull. simpl in Hfull. lia.
  - unfold bind. rewrite delete_eq.
    pose proof (min_from_contains first rest) as Hmin.
    rewrite <- (contains_keys _ _ _ Hk) in Hmin.
    rewrite Hmin. unfold ret. do 2 eexists. split; [reflexivity|].
    split; [now apply inv_pop|]. split; [reflexivity|]. right. simpl.
    rewrite len_pop by exact Hmin. lia.
Qed.

Lemma keeps_upholds {A} (op : M MemoryCache.t A) :
  keeps_inv op -> upholds (memory_inv m) op.
Proof.
  intros Hop clk c Hc. now destruct (Hop clk c Hc) as (a & clk' & c' & -> & Hc').
Qed.

(** The caller's [try: op  except Exception: pass]. *)
Lemma keeps_attempt (op : M MemoryCache.t unit) :
  upholds (memory_inv m) op -> keeps_inv (try_except op (fun _ => ret tt)).
Proof.
  intros Hop clk c Hc. specialize (Hop clk c Hc). unfold try_except, ret.
  destruct (op (clk, c)) as [[[]|e] [clk' c']]; eauto.
Qed.

(** [set] keeps the invariant also when the expiry overflows: the entry is
    not stored then, and the eviction that has run removed one. *)
Lemma upholds_set key value ttl :
  (1 <= m)%Z -> upholds (memory_inv m) (MemoryCache.set key value ttl).
Proof.
  intros Hm clk c Hc. unfold MemoryCache.set, bind at 1, self. simpl.
  unfold bind at 1.
  destruct (evict_makes_room key clk c Hm Hc) as (clk1 & c1 & -> & Hc1 & _ & Hroom).
  destruct ttl as [|[n|]]; [destruct (MemoryCache.default_ttl c)|..];
    unfold time_plus, bind, time_time, modify, ret, raise; simpl;
    try destruct (fits_float _); simpl; auto using inv_insert.
Qed.

Lemma keeps_run_op o : (1 <= m)%Z -> keeps_inv (run_op o).
Proof.
  intros Hm. apply keeps_attempt. destruct o; simpl;
    auto using upholds_set; apply keeps_upholds;
    auto using keeps_clear with lia;
    (apply keeps_bind; [|intros _; apply keeps_ret]);
    auto using keeps_get, keeps_delete, keeps_exists, keeps_keys.
Qed.

Lemma keeps_run_ops ops : (1 <= m)%Z -> keeps_inv (run_ops ops).
Proof.
  intros Hm. induction ops as [|o ops IH]; simpl; [apply keeps_ret|].
  apply keeps_bind; [now apply keeps_run_op|intros _; exact IH].
Qed.

End MemoryInvariant.

(** C5: after every sequence of [get], [set], [delete], [exists], [clear]
    and [keys] on a memory cache built with [max_size >= 1], the caller
    going on after a [set] that raised [OverflowError], the cache holds at
    most [max_size] entries, and its entry dict and its access-time dict
    have the same keys.  Every intermediate state is the final state of a prefix of the
    sequence. *)
Theorem memory_cache_bounded_and_in_sync
    (max_size : Z) (default_ttl : option Z) (ops : list op) (clk : Clock) :
  (1 <= max_size)%Z ->
  exists clk' c',
    run_ops ops (clk, fresh_memory max_size default_ttl) = (Ok tt, (clk', c'))
    /\ (Dict.len (MemoryCache._cache c') <= max_size)%Z
    /\ Dict.keys (MemoryCache._cache c') = Dict.keys (MemoryCache._access_times c').
Proof.
  intros Hm.
  destruct (keeps_run_ops max_size ops Hm clk (fresh_memory max_size default_ttl))
    as ([] & clk' & c' & Hrun & _ & Hk & Hl).
  - repeat split; simpl; auto. unfold Dict.len. simpl. lia.
  - eauto.
Qed.

Lemma memory_cache_bounded_and_in_sync_witness :
  exists clk' c',
    run_ops [OpSet "a" (PInt 1) Omitted; OpSet "b" PNone (Given (Some 5%Z));
             OpGet "a"; OpKeys; OpSet "c" (PStr "x") (Given None); OpExists "b";
             OpSet "d" (PInt 2) (Given (Some (2 ^ 1024)%Z)); OpDelete "c"; OpClear]
      (ticking_clock, fresh_memory 2 (Some 1%Z)) = (Ok tt, (clk', c'))
    /\ (Dict.len (MemoryCache._cache c') <= 2)%Z
    /\ Dict.keys (MemoryCache._cache c') = Dict.keys (MemoryCache._access_times c').
Proof. apply memory_cache_bounded_and_in_sync. lia. Defined.

(** ** The operations as equations *)

Ltac run := unfold bind, ret, raise, self, modify, time_time, try_except,
              FileCache.lift; simpl.

Lemma file_serialize_eq v clk c :
  FileCache._serialize v (clk, c) = (dumps (FileCache.serializer c) v, (clk, c)).
Proof.
  unfold FileCache._serialize, dumps. run.
  repeat destruct (String.eqb _ _); reflexivity.
Qed.

Lemma file_deserialize_eq data clk c :
  FileCache._deserialize data (clk, c) = (loads (FileCache.serializer c) data, (clk, c)).
Proof.
  unfold FileCache._deserialize, loads. run.
  repeat destruct (String.eqb _ _); reflexivity.
Qed.

Lemma loads_dumps serializer v data :
  dumps serializer v = Ok data -> loads serializer data = Ok v.
Proof.
  unfold dumps, loads. repeat destruct (String.eqb _ _); [| |discriminate];
    destruct v; simpl; intros [= <-]; reflexivity.
Qed.

(** What [set] does, as an equation: the expiry may overflow, then the
    serialiser may reject the value, then the write may fail. *)
Lemma file_set_eq key v ttl clk c :
  FileCache.set key v ttl (clk, c)
  = let ttl' := file_ttl (FileCache.default_ttl c) ttl in
    let clk1 := after_expiry clk ttl' in
    if overflows ttl' then (Raise OverflowError, (clk1, c))
    else
      match dumps (FileCache.serializer c) v with
      | Raise e => (Raise e, (clk1, c))
      | Ok data =>
          match FileCache.faults c !! FileCache._get_cache_file key with
          | None =>
              (Ok tt,
               (tick clk1,
                FileCache.with_cache_dir
                  (<[FileCache._get_cache_file key :=
                       FileCache.Envelope data (now clk1) (expiry clk ttl')]>) c))
          | Some FileCache.OpenFails =>
              (Raise CacheSerializationError, (tick clk1, c))
          | Some FileCache.DumpFails =>
              (Raise CacheSerializationError,
               (tick clk1,
                FileCache.with_cache_dir
                  (<[FileCache._get_cache_file key := FileCache.Unreadable]>) c))
          end
      end.
Proof.
  unfold FileCache.set, bind at 1, self. simpl. unfold bind at 1.
  destruct ttl as [n|]; [|destruct (FileCache.default_ttl c) as [d|]]; simpl;
    unfold time_plus; run; try destruct (fits_float _); simpl; try reflexivity;
    rewrite file_serialize_eq;
    (destruct (dumps (FileCache.serializer c) v); [|reflexivity]);
    unfold FileCache.write; run;
    destruct (FileCache.faults c !! FileCache._get_cache_file key) as [[]|];
    reflexivity.
Qed.

(** What [get] does, as an equation: the expiry of a dict is tested before
    its value is read. *)
Lemma file_get_eq key clk c :
  FileCache.get key (clk, c)
  = match FileCache.cache_dir c !! FileCache._get_cache_file key with
    | None => (Ok PNone, (clk, c))
    | Some f =>
        let clk1 := after_expiry clk (file_expiry f) in
        if expired_at (file_expiry f) clk then (Ok PNone, (clk1, unlinked key c))
        else
          match f with
          | FileCache.Envelope data _ _ =>
              match loads (FileCache.serializer c) data with
              | Ok v => (Ok v, (clk1, c))
              | Raise _ => (Raise CacheSerializationError, (clk1, unlinked key c))
              end
          | _ => (Raise CacheSerializationError, (clk1, unlinked key c))
          end
    end.
Proof.
  unfold FileCache.get, bind at 1, self. simpl.
  destruct (FileCache.cache_dir c !! FileCache._get_cache_file key)
    as [[data t e|e|]|]; [| |reflexivity..].
  - unfold try_except, bind at 1. simpl. unfold ret at 1, bind at 1.
    unfold FileCache._is_expired, expired_at.
    destruct e as [e|]; simpl.
    + fold (now clk). destruct (e <? now clk)%Z; [reflexivity|].
      unfold FileCache.getitem_value. simpl. unfold bind at 1, ret at 1.
      rewrite file_deserialize_eq.
      destruct (loads (FileCache.serializer c) data); reflexivity.
    + unfold FileCache.getitem_value. simpl. unfold bind at 1, ret at 1.
      rewrite file_deserialize_eq.
      destruct (loads (FileCache.serializer c) data); reflexivity.
  - unfold try_except, bind at 1. simpl. unfold ret at 1, bind at 1.
    unfold FileCache._is_expired, expired_at.
    destruct e as [e|]; simpl; [fold (now clk); destruct (e <? now clk)%Z|];
      reflexivity.
Qed.

(** A [set] that returns has computed the expiry, serialised the value and
    written the envelope. *)
Lemma file_set_ok key v ttl clk c :
  fst (FileCache.set key v ttl (clk, c)) = Ok tt ->
  let ttl' := file_ttl (FileCache.default_ttl c) ttl in
  let clk1 := after_expiry clk ttl' in
  exists data,
    overflows ttl' = false
    /\ dumps (FileCache.serializer c) v = Ok data
    /\ FileCache.faults c !! FileCache._get_cache_file key = None
    /\ FileCache.set key v ttl (clk, c)
       = (Ok tt,
          (tick clk1,
           FileCache.with_cache_dir
             (<[FileCache._get_cache_file key :=
                  FileCache.Envelope data (now clk1) (expiry clk ttl')]>) c)).
Proof.
  rewrite file_set_eq. cbv zeta.
  destruct (overflows _); [discriminate|].
  destruct (dumps (FileCache.serializer c) v) as [data|e]; [|discriminate].
  destruct (FileCache.faults c !! FileCache._get_cache_file key) as [[]|];
    try discriminate.
  intros _. eauto.
Qed.

(** The [get] of an envelope just written. *)
Lemma file_get_written key v data created e later c :
  dumps (FileCache.serializer c) v = Ok data ->
  let c' := FileCache.with_cache_dir
              (<[FileCache._get_cache_file key :=
                   FileCache.Envelope data created e]>) c in
  FileCache.get key (later, c')
  = if expired_at e later then (Ok PNone, (after_expiry later e, unlinked key c'))
    else (Ok v, (after_expiry later e, c')).
Proof.
  intros Hdumps c'. rewrite file_get_eq. subst c'. simpl.
  rewrite lookup_insert_eq. simpl.
  destruct (expired_at e later); [reflexivity|].
  now rewrite (loads_dumps _ _ _ Hdumps).
Qed.

Lemma getitem_setitem {V} (d : Dict.t V) key v :
  Dict.getitem key (Dict.setitem key v d) = Some v.
Proof.
  induction d as [|[k1 v1] d IH]; simpl.
  - now rewrite String.eqb_refl.
  - destruct (String.eqb key k1) eqn:E; simpl; rewrite ?String.eqb_refl, ?E; auto.
Qed.

Lemma evict_eq clk c : MemoryCache._evict_lru (clk, c) = (Ok tt, (clk, evicted c)).
Proof.
  unfold MemoryCache._evict_lru, evicted, bind at 1, self. simpl.
  destruct (MemoryCache._access_times c) as [|first rest]; [reflexivity|].
  unfold bind. rewrite delete_eq.
  destruct (Dict.contains _ _); reflexivity.
Qed.

(** What [set] does, as an equation: the capacity check reads no clock; the
    expiry is computed next, and when it overflows [set] raises with the
    eviction done and nothing stored. *)
Lemma memory_set_eq key v ttl clk c :
  MemoryCache.set key v ttl (clk, c)
  = let ttl' := memory_ttl (MemoryCache.default_ttl c) ttl in
    let clk1 := after_expiry clk ttl' in
    if overflows ttl' then (Raise OverflowError, (clk1, made_room key c))
    else
      (Ok tt,
       (tick (tick clk1),
        MemoryCache.with_access_times (Dict.setitem key (now (tick clk1)))
          (MemoryCache.with_cache
             (Dict.setitem key
                {| MemoryCache.value := v; MemoryCache.created_at := now clk1;
                   MemoryCache.expires_at := expiry clk ttl' |})
             (made_room key c)))).
Proof.
  unfold MemoryCache.set, made_room, bind at 1, self. simpl. unfold bind at 1.
  destruct (_ && _); [rewrite evict_eq|unfold ret at 1];
    (destruct ttl as [|[n|]]; [destruct (MemoryCache.default_ttl c) as [d|]|..]);
    simpl; unfold time_plus; run; try destruct (fits_float _); reflexivity.
Qed.

(** The capacity check changes no parameter. *)
Lemma made_room_params key c :
  MemoryCache.default_ttl (made_room key c) = MemoryCache.default_ttl c
  /\ MemoryCache.max_size (made_room key c) = MemoryCache.max_size c.
Proof.
  unfold made_room, evicted. destruct (_ && _); [|auto].
  destruct (MemoryCache._access_times c) as [|first rest]; [auto|].
  simpl. destruct (Dict.contains _ _); auto.
Qed.

(** After a [set] whose expiry does not overflow the key holds the value,
    with the expiry of the ttl in force. *)
Lemma memory_set_stores key v ttl clk c :
  let ttl' := memory_ttl (MemoryCache.default_ttl c) ttl in
  let clk1 := after_expiry clk ttl' in
  overflows ttl' = false ->
  exists c',
    MemoryCache.set key v ttl (clk, c) = (Ok tt, (tick (tick clk1), c'))
    /\ Dict.getitem key (MemoryCache._cache c')
       = Some {| MemoryCache.value := v; MemoryCache.created_at := now clk1;
                 MemoryCache.expires_at := expiry clk ttl' |}
    /\ MemoryCache.default_ttl c' = MemoryCache.default_ttl c
    /\ MemoryCache.max_size c' = MemoryCache.max_size c.
Proof.
  intros ttl' clk1 Hfits. subst ttl' clk1. rewrite memory_set_eq. cbv zeta.
  rewrite Hfits. eexists. split; [reflexivity|]. simpl. rewrite getitem_setitem.
  destruct (made_room_params key c). auto.
Qed.

(** [set] returns exactly when the expiry does not overflow. *)
Lemma memory_set_returns key v ttl clk c :
  fst (MemoryCache.set key v ttl (clk, c)) = Ok tt
  <-> overflows (memory_ttl (MemoryCache.default_ttl c) ttl) = false.
Proof.
  rewrite memory_set_eq. simpl.
  destruct (overflows _); simpl; split; auto; discriminate.
Qed.

Lemma memory_get_eq key clk c :
  MemoryCache.get key (clk, c)
  = match Dict.getitem key (MemoryCache._cache c) with
    | None => (Ok PNone, (clk, c))
    | Some item =>
        let clk1 := after_expiry clk (MemoryCache.expires_at item) in
        if match MemoryCache.expires_at item with
           | Some e => (e <? now clk)%Z
           | None => false
           end
        then (Ok PNone,
              (clk1, MemoryCache.with_access_times (Dict.pop key)
                       (MemoryCache.with_cache (Dict.pop key) c)))
        else (Ok (MemoryCache.value item),
              (tick clk1,
               MemoryCache.with_access_times (Dict.setitem key (now clk1)) c))
    end.
Proof.
  unfold MemoryCache.get, bind at 1, self. simpl.
  destruct (Dict.getitem key (MemoryCache._cache c)) as [item|] eqn:Hget;
    [|reflexivity].
  unfold MemoryCache._is_expired.
  destruct (MemoryCache.expires_at item) as [e|]; simpl.
  - unfold bind at 1 2, time_time at 1, ret at 1. simpl. fold (now clk).
    destruct (e <? now clk)%Z.
    + unfold bind. rewrite delete_eq. simpl.
      now rewrite (getitem_contains _ _ _ Hget).
    + reflexivity.
  - reflexivity.
Qed.

(** ** An explicit [ttl=None] *)




(** ** The keys of a file cache *)

(** [keys] takes the stem of each cache file, which is the digest of a key,
    for a key: a stem is reported only when the file named by its own
    digest holds a live value. *)
Lemma file_keys_after_set (k : string) (v : pyval) (ttl : option Z) clk :
  FileCache._get_cache_file (FileCache._get_cache_file k)
    <> FileCache._get_cache_file k ->
  fst (FileCache.set k v ttl (clk, fresh_file None "pickle")) = Ok tt ->
  fst ((FileCache.set k v ttl ;; FileCache.keys) (clk, fresh_file None "pickle"))
  = Ok [].
Proof.
  intros Hne Hret. unfold bind at 1.
  destruct (file_set_ok k v ttl clk _ Hret) as (data & _ & _ & _ & ->). simpl.
  unfold FileCache.keys, bind at 1, self. simpl.
  rewrite insert_empty, map_to_list_singleton. simpl.
  unfold bind at 1, FileCache.exists_, bind at 1.
  rewrite file_get_eq. simpl.
  rewrite lookup_insert_ne by (intros E; apply Hne; symmetry; exact E).
  rewrite lookup_empty. reflexivity.
Qed.

(** C1 at the failing input: on an empty directory, after [set("a", 1)]
    with no expiry, [keys()] is the empty list and so misses ["a"]. *)
Theorem file_keys_misses_the_key (clk : Clock) :
  fst ((FileCache.set "a" (PInt 1) None ;; FileCache.keys)
         (clk, fresh_file None "pickle"))
  = Ok [].
Proof.
  apply file_keys_after_set; [|reflexivity].
  vm_compute. discriminate.
Qed.

(** ** A file that cannot be decoded *)

(** C8, as stated, fails for a file that has expired: the expiry is tested
    before the value is decoded, so [get] deletes the file and returns
    [None] without raising, although the value cannot be decoded. *)
Lemma file_get_expired_is_not_decoded :
  let f := FileCache.Envelope FileCache.OtherBytes 0 (Some 0%Z) in
  let c := {| FileCache.cache_dir := {[FileCache._get_cache_file "k" := f]};
              FileCache.faults := ∅; FileCache.default_ttl := None;
              FileCache.serializer := "pickle" |} in
  cannot_decode c f
  /\ fst (FileCache.get "k" (frozen_clock 1, c)) = Ok PNone.
Proof.
  intros f c. split.
  - exists OtherException. reflexivity.
  - rewrite file_get_eq. unfold c. cbn [FileCache.cache_dir].
    rewrite lookup_singleton_eq. reflexivity.
Qed.

(** C8, amended: when the file of [k] exists and cannot be decoded,
    [get(k)] deletes it, and from then on [get(k)] reports the key absent,
    without raising and without touching anything.  The [get] that deletes
    the file raises [CacheSerializationError], unless the file yields a
    dict whose expiry has passed: then it returns [None]. *)
Theorem file_get_self_heals (c : FileCache.t) (clk : Clock) (k : string)
    (f : FileCache.file) :
  FileCache.cache_dir c !! FileCache._get_cache_file k = Some f ->
  cannot_decode c f ->
  exists clk' c',
    FileCache.get k (clk, c)
    = (if expired_at (file_expiry f) clk then Ok PNone
       else Raise CacheSerializationError, (clk', c'))
    /\ FileCache.cache_dir c' !! FileCache._get_cache_file k = None
    /\ forall later, FileCache.get k (later, c') = (Ok PNone, (later, c')).
Proof.
  intros Hf Hbad.
  assert (Hgone : FileCache.cache_dir (unlinked k c) !! FileCache._get_cache_file k
                  = None) by (simpl; apply lookup_delete_eq).
  assert (Hretry : forall later,
            FileCache.get k (later, unlinked k c) = (Ok PNone, (later, unlinked k c)))
    by (intros later; rewrite file_get_eq, Hgone; reflexivity).
  rewrite file_get_eq, Hf. cbv zeta.
  destruct (expired_at (file_expiry f) clk); [eauto 6|].
  destruct f as [data t e|e|]; simpl in *; [|eauto 6..].
  destruct Hbad as (err & ->). eauto 6.
Qed.

Lemma file_get_self_heals_witness :
  let f := FileCache.Envelope (FileCache.JsonText (PInt 1)) 0 (Some 100%Z) in
  exists clk' c',
    FileCache.get "k"
      (ticking_clock,
       {| FileCache.cache_dir := {[FileCache._get_cache_file "k" := f]};
          FileCache.faults := ∅; FileCache.default_ttl := None;
          FileCache.serializer := "pickle" |})
    = (if expired_at (file_expiry f) ticking_clock then Ok PNone
       else Raise CacheSerializationError, (clk', c'))
    /\ FileCache.cache_dir c' !! FileCache._get_cache_file "k" = None
    /\ forall later, FileCache.get "k" (later, c') = (Ok PNone, (later, c')).
Proof.
  intros f. apply (file_get_self_heals _ _ _ f).
  - apply lookup_singleton_eq.
  - exists OtherException. reflexivity.
Defined.

(** ** A composite with a tier that always raises *)

Lemma failing_get k clk :
  CacheBackend.get k (clk, Failing) = (Raise OtherException, (clk, Failing)).
Proof. reflexivity. Qed.

Lemma failing_set k v ttl clk :
  CacheBackend.set k v ttl (clk, Failing) = (Raise OtherException, (clk, Failing)).
Proof. reflexivity. Qed.

Lemma failing_delete k clk :
  CacheBackend.delete k (clk, Failing) = (Raise OtherException, (clk, Failing)).
Proof. reflexivity. Qed.

Ltac run_tiers :=
  unfold MultiLevelCache.get, MultiLevelCache.set, MultiLevelCache.delete; run;
  unfold MultiLevelCache.on_cache; run;
  rewrite ?failing_get, ?failing_set, ?failing_delete.

(** C7: a composite of a tier [h] and a tier whose every operation raises,
    in either order, never raises from [get], [set] or [delete] and does
    what [h] alone does: [get] returns the value [h.get] returns, [set]
    leaves [h] as [h.set] leaves it, [delete] returns what [h.delete]
    returns; where [h] itself raises, the composite reports no value,
    respectively no deletion. *)
Theorem fault_isolation (failing_first : bool) (h : tier) (k : string) (clk : Clock) :
  (forall r clk' h',
     CacheBackend.get k (clk, h) = (r, (clk', h')) ->
     MultiLevelCache.get k (clk, with_failing failing_first h)
     = (Ok match r with Ok v => v | Raise _ => PNone end,
        (clk', with_failing failing_first h')))
  /\ (forall v ttl r clk' h',
        CacheBackend.set k v (Given ttl) (clk, h) = (r, (clk', h')) ->
        MultiLevelCache.set k v ttl (clk, with_failing failing_first h)
        = (Ok tt, (clk', with_failing failing_first h')))
  /\ (forall r clk' h',
        CacheBackend.delete k (clk, h) = (r, (clk', h')) ->
        MultiLevelCache.delete k (clk, with_failing failing_first h)
        = (Ok match r with Ok deleted => deleted | Raise _ => false end,
           (clk', with_failing failing_first h'))).
Proof.
  repeat split.
  - intros r clk' h' Hget. destruct failing_first; run_tiers; rewrite Hget.
    + destruct r as [[]|]; run_tiers; reflexivity.
    + destruct r as [[]|]; run_tiers; reflexivity.
  - intros v ttl r clk' h' Hset. destruct failing_first; run_tiers; rewrite Hset;
      destruct r; run_tiers; reflexivity.
  - intros r clk' h' Hdel. destruct failing_first; run_tiers; rewrite Hdel;
      destruct r as [[]|]; run_tiers; reflexivity.
Qed.

Lemma fault_isolation_witness :
  MultiLevelCache.set "k" (PInt 1) None
    (ticking_clock, with_failing true (Memory (fresh_memory 2 None)))
  = (Ok tt,
     (tick (tick ticking_clock),
      with_failing true
        (Memory {| MemoryCache.max_size := 2; MemoryCache.default_ttl := None;
                   MemoryCache._cache :=
                     [("k", {| MemoryCache.value := PInt 1;
                               MemoryCache.created_at := 0;
                               MemoryCache.expires_at := None |})];
                   MemoryCache._access_times := [("k", 1%Z)] |}))).
Proof.
  apply (proj1 (proj2 (fault_isolation true (Memory (fresh_memory 2 None))
                         "k" ticking_clock)) (PInt 1) None (Ok tt)).
  reflexivity.
Defined.

(** ** Write-back to the faster tier *)

Lemma tier_memory_get k clk c :
  CacheBackend.get k (clk, Memory c)
  = match MemoryCache.get k (clk, c) with
    | (r, (clk', c')) => (r, (clk', Memory c'))
    end.
Proof. reflexivity. Qed.

Lemma tier_memory_set k v ttl clk c :
  CacheBackend.set k v ttl (clk, Memory c)
  = match MemoryCache.set k v ttl (clk, c) with
    | (r, (clk', c')) => (r, (clk', Memory c'))
    end.
Proof. reflexivity. Qed.

Lemma tier_file_get k clk c :
  CacheBackend.get k (clk, File c)
  = match FileCache.get k (clk, c) with
    | (r, (clk', c')) => (r, (clk', File c'))
    end.
Proof. reflexivity. Qed.

Lemma tier_file_set k v ttl clk c :
  CacheBackend.set k v ttl (clk, File c)
  = match FileCache.set k v (match ttl with Omitted => None | Given n => n end)
            (clk, c) with
    | (r, (clk', c')) => (r, (clk', File c'))
    end.
Proof. reflexivity. Qed.

(** After a [set] with the ttl omitted that returns, a tier gives the value
    back until the expiry of its default ttl has passed. *)
Lemma tier_set_then_get t k v clk clk' t' :
  CacheBackend.set k v Omitted (clk, t) = (Ok tt, (clk', t')) ->
  forall later,
    exists w,
      CacheBackend.get k (later, t')
      = (Ok (if expired_at (expiry clk (default_ttl_of t)) later then PNone else v),
         w).
Proof.
  destruct t as [c|c|]; simpl; [| |discriminate].
  - rewrite tier_memory_set. intros Hset later.
    assert (Hfits : overflows (memory_ttl (MemoryCache.default_ttl c) Omitted) = false).
    { apply (memory_set_returns k v Omitted clk c).
      destruct (MemoryCache.set k v Omitted (clk, c)) as [r [clk1 c1]].
      now injection Hset as -> _ _. }
    destruct (memory_set_stores k v Omitted clk c Hfits) as (c' & Hset' & Hget & _).
    rewrite Hset' in Hset. injection Hset as _ <-.
    rewrite tier_memory_get, memory_get_eq, Hget. simpl.
    fold (expired_at (expiry clk (MemoryCache.default_ttl c)) later).
    destruct (expired_at _ later); eauto.
  - rewrite tier_file_set. intros Hset later.
    assert (Hret : fst (FileCache.set k v None (clk, c)) = Ok tt).
    { destruct (FileCache.set k v None (clk, c)) as [r [clk1 c1]].
      now injection Hset as -> _ _. }
    destruct (file_set_ok k v None clk c Hret) as (data & _ & Hdumps & _ & Hset').
    rewrite Hset' in Hset. injection Hset as _ <-.
    rewrite tier_file_get, (file_get_written k v data _ _ later c Hdumps). simpl.
    destruct (expired_at _ later); eauto.
Qed.

(** A [get] changes no parameter of a tier. *)
Lemma memory_get_default_ttl key clk c :
  MemoryCache.default_ttl (snd (snd (MemoryCache.get key (clk, c))))
  = MemoryCache.default_ttl c.
Proof.
  rewrite memory_get_eq.
  destruct (Dict.getitem key (MemoryCache._cache c)) as [item|]; [|reflexivity].
  simpl. now destruct (match MemoryCache.expires_at item with
                       | Some e => (e <? now clk)%Z
                       | None => false
                       end).
Qed.

Lemma tier_get_default_ttl t k clk :
  default_ttl_of (snd (snd (CacheBackend.get k (clk, t)))) = default_ttl_of t.
Proof.
  destruct t as [c|c|]; [| |reflexivity].
  - rewrite tier_memory_get.
    pose proof (memory_get_default_ttl k clk c) as Hd.
    now destruct (MemoryCache.get k (clk, c)) as [r [clk' c']].
  - rewrite tier_file_get, file_get_eq.
    destruct (FileCache.cache_dir c !! FileCache._get_cache_file k) as [f|];
      [|reflexivity].
    cbv zeta. destruct (expired_at (file_expiry f) clk); [reflexivity|].
    destruct f as [data t e| |]; try reflexivity.
    now destruct (loads (FileCache.serializer c) data).
Qed.




(** ** The manager and the memoising wrapper *)

Section Manager.
Context {B : Type} `{CacheBackend.t B}.
Implicit Types (mg : CacheManager.t B) (backend : option string).

Lemma manager_get_eq key backend clk mg :
  CacheManager.get key backend (clk, mg)
  = match selected mg backend with
    | None => (Raise CacheError, (clk, counted CacheManager.count_miss mg))
    | Some b =>
        match CacheBackend.get key (clk, b) with
        | (Ok v, (clk', b')) =>
            (Ok v,
             (clk', counted (if is_not_None v then CacheManager.count_hit
                             else CacheManager.count_miss)
                      (put_selected backend b' mg)))
        | (Raise _, (clk', b')) =>
            (Raise CacheError,
             (clk', counted CacheManager.count_miss (put_selected backend b' mg)))
        end
    end.
Proof.
  unfold CacheManager.get, CacheManager.get_backend, CacheManager.call, zoom.
  destruct backend as [name|]; run.
  - destruct (CacheManager.backends mg !! name) as [b|] eqn:Hb; simpl;
      rewrite ?Hb; [|reflexivity].
    destruct (CacheBackend.get key (clk, b)) as [[v|e] [clk' b']]; [|reflexivity].
    destruct v; reflexivity.
  - destruct (CacheBackend.get key (clk, _)) as [[v|e] [clk' b']]; [|reflexivity].
    destruct v; reflexivity.
Qed.

Lemma manager_set_eq key v ttl backend clk mg :
  CacheManager.set key v ttl backend (clk, mg)
  = match selected mg backend with
    | None => (Raise CacheError, (clk, mg))
    | Some b =>
        match CacheBackend.set key v (Given ttl) (clk, b) with
        | (Ok _, (clk', b')) =>
            (Ok tt, (clk', counted CacheManager.count_set (put_selected backend b' mg)))
        | (Raise _, (clk', b')) =>
            (Raise CacheError, (clk', put_selected backend b' mg))
        end
    end.
Proof.
  unfold CacheManager.set, CacheManager.get_backend, CacheManager.call, zoom.
  destruct backend as [name|]; run.
  - destruct (CacheManager.backends mg !! name) as [b|] eqn:Hb; simpl;
      rewrite ?Hb; [|reflexivity].
    destruct (CacheBackend.set key v (Given ttl) (clk, b)) as [[[]|e] [clk' b']];
      reflexivity.
  - destruct (CacheBackend.set key v (Given ttl) (clk, _)) as [[[]|e] [clk' b']];
      reflexivity.
Qed.

Section Wrapper.
Context {U Args : Type}.
Variable ttl : option Z.
Variable key_func : option (Args -> string).
Variable backend : option string.
Variable func : Args -> M U pyval.
Variable default_key : Args -> string.

Local Abbreviation wrapped := (wrapper ttl key_func backend func default_key).
Local Abbreviation key_of := (cache_key_of key_func default_key).

Local Abbreviation run_func := (run_and_store ttl key_func backend func default_key).

Lemma wrapper_eq args clk mg u :
  wrapped args (clk, (mg, u))
  = match CacheManager.get (key_of args) backend (clk, mg) with
    | (Ok v, (clk1, mg1)) =>
        if is_not_None v then (Ok v, (clk1, (mg1, u)))
        else run_func args clk1 mg1 u
    | (Raise _, (clk1, mg1)) => run_func args clk1 mg1 u
    end.
Proof.
  unfold wrapper, run_and_store, on_manager, on_func_state, zoom, key_of,
    cache_key_of.
  run.
  destruct (CacheManager.get _ backend (clk, mg)) as [[v|e] [clk1 mg1]].
  - destruct v; simpl; try reflexivity.
    destruct (func args (clk1, u)) as [[res|e] [clk2 u2]]; simpl; [|reflexivity].
    destruct (CacheManager.set _ res ttl backend (clk2, mg1)) as [[|] [clk3 mg3]];
      reflexivity.
  - simpl.
    destruct (func args (clk1, u)) as [[res|e'] [clk2 u2]]; simpl; [|reflexivity].
    destruct (CacheManager.set _ res ttl backend (clk2, mg1)) as [[|] [clk3 mg3]];
      reflexivity.
Qed.

(** C9: when the lookup through the manager raises, the wrapper still runs
    the function, once, on the state it finds, and returns the function's
    result; the store that follows has its outcome discarded, so that a
    store that raises changes nothing of this. *)
Theorem memoization_survives_cache_failures args clk mg u e clk1 mg1 :
  CacheManager.get (key_of args) backend (clk, mg) = (Raise e, (clk1, mg1)) ->
  wrapped args (clk, (mg, u)) = run_func args clk1 mg1 u
  /\ fst (wrapped args (clk, (mg, u))) = fst (func args (clk1, u))
  /\ snd (snd (snd (wrapped args (clk, (mg, u)))))
     = snd (snd (func args (clk1, u))).
Proof.
  intros Hget. rewrite wrapper_eq, Hget. unfold run_and_store.
  destruct (func args (clk1, u)) as [[res|e'] [clk2 u2]]; [|auto].
  destruct (CacheManager.set _ res ttl backend (clk2, mg1)) as [rs [clk3 mg3]].
  auto.
Qed.

End Wrapper.
End Manager.

Lemma memoization_survives_cache_failures_witness :
  let w := (ticking_clock,
            (CacheManager.__init__ (Memory (fresh_memory 10 None)), 0)) in
  let wrapped :=
    wrapper None None (Some "missing") (counting (PInt 42)) (fun _ => "key") in
  wrapped tt w
  = run_and_store None None (Some "missing") (counting (PInt 42))
      (fun _ => "key") tt ticking_clock
      (counted CacheManager.count_miss
         (CacheManager.__init__ (Memory (fresh_memory 10 None)))) 0
  /\ fst (wrapped tt w) = fst (counting (PInt 42) tt (ticking_clock, 0))
  /\ snd (snd (snd (wrapped tt w)))
     = snd (snd (counting (PInt 42) tt (ticking_clock, 0))).
Proof.
  apply (memoization_survives_cache_failures None None (Some "missing")
           (counting (PInt 42)) (fun _ => "key") tt ticking_clock
           (CacheManager.__init__ (Memory (fresh_memory 10 None))) 0 CacheError).
  reflexivity.
Defined.

(** ** More about dicts *)

Section DictMore.
Context {V : Type}.
Implicit Types (d : Dict.t V).

Lemma contains_in d k : Dict.contains k d = true <-> k ∈ Dict.keys d.
Proof.
  unfold Dict.contains.
  induction d as [|[k1 v1] d IH]; simpl; [split; [discriminate|inversion 1]|].
  destruct (String.eqb_spec k k1) as [->|Hne].
  - split; [intros _; left|reflexivity].
  - rewrite IH. split; [now right|]. inversion 1; [contradiction|assumption].
Qed.

Lemma contains_not_in d k : Dict.contains k d = false <-> k ∉ Dict.keys d.
Proof.
  rewrite <- contains_in. destruct (Dict.contains k d); split; auto; try discriminate.
  intros Hn. now contradiction Hn.
Qed.

Lemma getitem_setitem_ne d k k' v :
  k' <> k -> Dict.getitem k' (Dict.setitem k v d) = Dict.getitem k' d.
Proof.
  intros Hne. induction d as [|[k1 v1] d IH]; simpl.
  - now rewrite (proj2 (String.eqb_neq k' k) Hne).
  - destruct (String.eqb_spec k k1) as [->|Hk]; simpl.
    + now rewrite (proj2 (String.eqb_neq k' k1) Hne).
    + now rewrite IH.
Qed.

Lemma getitem_pop_ne d k k' :
  k' <> k -> Dict.getitem k' (Dict.pop k d) = Dict.getitem k' d.
Proof.
  intros Hne. induction d as [|[k1 v1] d IH]; simpl; [reflexivity|].
  destruct (String.eqb_spec k k1) as [->|Hk]; simpl.
  - now rewrite (proj2 (String.eqb_neq k' k1) Hne).
  - now rewrite IH.
Qed.

Lemma getitem_not_in d k : k ∉ Dict.keys d -> Dict.getitem k d = None.
Proof.
  intros Hn. apply contains_not_in in Hn. unfold Dict.contains in Hn.
  now destruct (Dict.getitem k d).
Qed.

Lemma pop_absent d k : Dict.contains k d = false -> Dict.pop k d = d.
Proof.
  unfold Dict.contains.
  induction d as [|[k1 v1] d IH]; simpl; [reflexivity|].
  destruct (String.eqb k k1); [discriminate|]. intros Hc. now rewrite IH.
Qed.

Lemma setitem_absent d k v :
  Dict.contains k d = false -> Dict.setitem k v d = (d ++ [(k, v)])%list.
Proof.
  unfold Dict.contains.
  induction d as [|[k1 v1] d IH]; simpl; [reflexivity|].
  destruct (String.eqb k k1); [discriminate|]. intros Hc. now rewrite IH.
Qed.

Lemma keys_pop_sub d k x : x ∈ Dict.keys (Dict.pop k d) -> x ∈ Dict.keys d.
Proof.
  induction d as [|[k1 v1] d IH]; simpl; [auto|].
  destruct (String.eqb k k1); simpl.
  - now right.
  - inversion 1; subst; [left|right; auto].
Qed.

Lemma is_dict_pop d k : is_dict d -> is_dict (Dict.pop k d).
Proof.
  unfold is_dict.
  induction d as [|[k1 v1] d IH]; simpl; [auto|].
  intros Hnd. apply NoDup_cons in Hnd as [Hn Hnd].
  destruct (String.eqb k k1); simpl; [assumption|].
  apply NoDup_cons. split; [|auto]. intros Hin. apply Hn. eauto using keys_pop_sub.
Qed.

Lemma getitem_pop_eq d k : is_dict d -> Dict.getitem k (Dict.pop k d) = None.
Proof.
  unfold is_dict.
  induction d as [|[k1 v1] d IH]; simpl; [reflexivity|].
  intros Hnd. apply NoDup_cons in Hnd as [Hn Hnd].
  destruct (String.eqb_spec k k1) as [->|Hk]; simpl.
  - now apply getitem_not_in.
  - rewrite (proj2 (String.eqb_neq k k1) Hk). auto.
Qed.

Lemma is_dict_setitem d k v : is_dict d -> is_dict (Dict.setitem k v d).
Proof.
  unfold is_dict. intros Hnd.
  destruct (Dict.contains k d) eqn:Hc.
  - now rewrite keys_setitem_present.
  - rewrite setitem_absent by exact Hc. unfold Dict.keys. rewrite map_app. simpl.
    apply NoDup_app. split; [exact Hnd|]. split.
    + intros x Hx Hx'. apply list_elem_of_singleton in Hx'. subst x.
      now apply contains_not_in in Hc.
    + apply NoDup_singleton.
Qed.

Lemma pop_middle (pre post : Dict.t V) k v :
  k ∉ Dict.keys pre -> Dict.pop k (pre ++ (k, v) :: post)%list = (pre ++ post)%list.
Proof.
  induction pre as [|[k1 v1] pre IH]; simpl; intros Hn.
  - now rewrite String.eqb_refl.
  - apply not_elem_of_cons in Hn as [Hne Hn].
    rewrite (proj2 (String.eqb_neq k k1) Hne). now rewrite IH.
Qed.

End DictMore.

(** ** A stored [None] *)

Lemma memory_exists_eq key clk c :
  MemoryCache.exists_ key (clk, c)
  = match Dict.getitem key (MemoryCache._cache c) with
    | None => (Ok false, (clk, c))
    | Some item =>
        let clk1 := after_expiry clk (MemoryCache.expires_at item) in
        if expired_at (MemoryCache.expires_at item) clk
        then (Ok false,
              (clk1, MemoryCache.with_access_times (Dict.pop key)
                       (MemoryCache.with_cache (Dict.pop key) c)))
        else (Ok true, (clk1, c))
    end.
Proof.
  unfold MemoryCache.exists_, bind at 1, self. simpl.
  destruct (Dict.getitem key (MemoryCache._cache c)) as [item|] eqn:Hget;
    [|reflexivity].
  unfold MemoryCache._is_expired.
  destruct (MemoryCache.expires_at item) as [e|]; simpl; [|reflexivity].
  unfold bind at 1 2, time_time at 1, ret at 1. simpl. fold (now clk).
  destruct (e <? now clk)%Z; [|reflexivity].
  unfold bind. rewrite delete_eq. simpl.
  now rewrite (getitem_contains _ _ _ Hget).
Qed.

(** What [get] returns depends on the entry of the key alone. *)
Lemma memory_get_fst key clk c :
  fst (MemoryCache.get key (clk, c))
  = Ok match Dict.getitem key (MemoryCache._cache c) with
       | None => PNone
       | Some item =>
           if expired_at (MemoryCache.expires_at item) clk then PNone
           else MemoryCache.value item
       end.
Proof.
  rewrite memory_get_eq.
  destruct (Dict.getitem key (MemoryCache._cache c)) as [item|]; [|reflexivity].
  unfold expired_at. simpl.
  now destruct (match MemoryCache.expires_at item with
                | Some e => (e <? now clk)%Z
                | None => false
                end).
Qed.

(** The capacity check of [set(key, ...)] leaves the entry of [key] as it
    is: it evicts only when the key is not in the cache. *)
Lemma made_room_getitem key c :
  Dict.getitem key (MemoryCache._cache (made_room key c))
  = Dict.getitem key (MemoryCache._cache c).
Proof.
  unfold made_room, evicted.
  destruct (_ <=? _)%Z; simpl; [|reflexivity].
  destruct (Dict.contains key (MemoryCache._cache c)) eqn:Hin; simpl;
    [reflexivity|].
  destruct (MemoryCache._access_times c) as [|first rest]; [reflexivity|].
  destruct (Dict.contains (MemoryCache.min_from first rest) (MemoryCache._cache c))
    eqn:Hv; [|reflexivity].
  simpl. apply getitem_pop_ne. intros ->. congruence.
Qed.

(** In a memory cache a stored [None] reads as absent through [get], but
    [exists] sees the entry until it expires. *)
Lemma memory_stored_none (c : MemoryCache.t) k ttl clk :
  fst (MemoryCache.set k PNone ttl (clk, c)) = Ok tt ->
  exists clk' c',
    MemoryCache.set k PNone ttl (clk, c) = (Ok tt, (clk', c'))
    /\ forall later,
         fst (MemoryCache.get k (later, c')) = Ok PNone
         /\ fst (MemoryCache.exists_ k (later, c'))
            = Ok (negb (expired_at
                          (expiry clk (memory_ttl (MemoryCache.default_ttl c) ttl))
                          later)).
Proof.
  intros Hret. apply memory_set_returns in Hret.
  destruct (memory_set_stores k PNone ttl clk c Hret) as (c' & Hset & Hget & _).
  do 2 eexists. split; [exact Hset|]. intros later.
  rewrite memory_get_eq, memory_exists_eq, Hget. simpl.
  fold (expired_at (expiry clk (memory_ttl (MemoryCache.default_ttl c) ttl)) later).
  destruct (expired_at _ later); auto.
Qed.

(** In a file cache a stored [None] reads as absent through [get] and
    through [exists]. *)
Lemma file_stored_none (c : FileCache.t) k ttl clk :
  fst (FileCache.set k PNone ttl (clk, c)) = Ok tt ->
  exists clk' c',
    FileCache.set k PNone ttl (clk, c) = (Ok tt, (clk', c'))
    /\ forall later,
         fst (FileCache.get k (later, c')) = Ok PNone
         /\ fst (FileCache.exists_ k (later, c')) = Ok false.
Proof.
  intros Hret.
  destruct (file_set_ok k PNone ttl clk c Hret) as (data & _ & Hdumps & _ & Hset).
  rewrite Hset. do 2 eexists. split; [reflexivity|]. intros later.
  unfold FileCache.exists_, bind.
  rewrite (file_get_written k PNone data _ _ later c Hdumps).
  now destruct (expired_at _ later).
Qed.

Lemma tier_none_is_no_value : none_is_no_value tier.
Proof.
  intros [c|c|] k ttl clk Hret later.
  - rewrite tier_memory_set in *.
    assert (Hret' : fst (MemoryCache.set k PNone ttl (clk, c)) = Ok tt)
      by (now destruct (MemoryCache.set k PNone ttl (clk, c)) as [r [clk1 c1]]).
    destruct (memory_stored_none c k ttl clk Hret') as (clk' & c' & -> & Hget).
    simpl. rewrite tier_memory_get.
    destruct (Hget later) as [Hg _].
    destruct (MemoryCache.get k (later, c')) as [r [clk2 c2]]. simpl in *.
    now subst r.
  - rewrite tier_file_set in *.
    set (ttl' := match ttl with Omitted => None | Given n => n end) in *.
    assert (Hret' : fst (FileCache.set k PNone ttl' (clk, c)) = Ok tt)
      by (now destruct (FileCache.set k PNone ttl' (clk, c)) as [r [clk1 c1]]).
    destruct (file_stored_none c k ttl' clk Hret') as (clk' & c' & -> & Hget).
    simpl. rewrite tier_file_get.
    destruct (Hget later) as [Hg _].
    destruct (FileCache.get k (later, c')) as [r [clk2 c2]]. simpl in *.
    now subst r.
  - rewrite failing_set in Hret. discriminate.
Qed.

Lemma tier_none_adds_no_value : none_adds_no_value tier.
Proof.
  intros [c|c|] k ttl clk Habs later.
  - specialize (Habs later). rewrite tier_memory_get in Habs.
    assert (Hc : no_value (fst (MemoryCache.get k (later, c))))
      by (now destruct (MemoryCache.get k (later, c)) as [r [clk1 c1]]).
    clear Habs. rewrite memory_get_fst in Hc.
    rewrite tier_memory_set, memory_set_eq. cbv zeta.
    destruct (overflows _); simpl; rewrite tier_memory_get;
      match goal with
      | |- context [MemoryCache.get k (later, ?c')] =>
          pose proof (memory_get_fst k later c') as Hg;
          destruct (MemoryCache.get k (later, c')) as [r [clk1 c1]]
      end; simpl in *; subst r.
    + now rewrite made_room_getitem.
    + rewrite getitem_setitem. simpl. now destruct (expired_at _ later).
  - specialize (Habs later). rewrite tier_file_get in Habs.
    assert (Hc : no_value (fst (FileCache.get k (later, c))))
      by (now destruct (FileCache.get k (later, c)) as [r [clk1 c1]]).
    clear Habs.
    rewrite tier_file_set, file_set_eq. cbv zeta.
    assert (Hsame : no_value (fst (CacheBackend.get k (later, File c)))).
    { rewrite tier_file_get.
      now destruct (FileCache.get k (later, c)) as [r [clk1 c1]]. }
    destruct (overflows _); [exact Hsame|].
    destruct (dumps (FileCache.serializer c) PNone) as [data|e] eqn:Hdumps;
      [|exact Hsame].
    destruct (FileCache.faults c !! FileCache._get_cache_file k) as [[]|];
      [exact Hsame| |]; simpl; rewrite tier_file_get.
    + rewrite file_get_eq. simpl. rewrite lookup_insert_eq. exact I.
    + rewrite (file_get_written k PNone data _ _ later c Hdumps).
      now destruct (expired_at _ later).
  - exact I.
Qed.

(** A [get] that gives no value leaves a tier that gives none for the key:
    an expired or undecodable entry is removed, a stored [None] stays. *)
Lemma tier_no_value_is_stable t k clk :
  tier_wf t ->
  no_value (fst (CacheBackend.get k (clk, t))) ->
  absent_at k (snd (snd (CacheBackend.get k (clk, t)))).
Proof.
  destruct t as [c|c|]; simpl; [intros [Hd _]|intros _|intros _ _ later; exact I].
  - rewrite tier_memory_get, memory_get_eq.
    destruct (Dict.getitem k (MemoryCache._cache c)) as [item|] eqn:Hitem.
    + cbv zeta.
      fold (expired_at (MemoryCache.expires_at item) clk).
      destruct (expired_at (MemoryCache.expires_at item) clk); simpl;
        intros Hno later; rewrite tier_memory_get;
        match goal with
        | |- context [MemoryCache.get k (later, ?c')] =>
            pose proof (memory_get_fst k later c') as Hg;
            destruct (MemoryCache.get k (later, c')) as [r [clk1 c1]]
        end; simpl in *; subst r.
      * now rewrite getitem_pop_eq.
      * rewrite Hitem, Hno. now destruct (expired_at _ later).
    + simpl. intros _ later. rewrite tier_memory_get.
      pose proof (memory_get_fst k later c) as Hg.
      destruct (MemoryCache.get k (later, c)) as [r [clk1 c1]]. simpl in *.
      subst r. now rewrite Hitem.
  - rewrite tier_file_get, file_get_eq.
    assert (Hgone : forall later,
              no_value (fst (CacheBackend.get k (later, File (unlinked k c))))).
    { intros later. rewrite tier_file_get, file_get_eq. simpl.
      now rewrite lookup_delete_eq. }
    destruct (FileCache.cache_dir c !! FileCache._get_cache_file k) as [f|] eqn:Hf.
    + cbv zeta. destruct (expired_at (file_expiry f) clk); [intros _; exact Hgone|].
      destruct f as [data t e|e|]; try (intros _; exact Hgone).
      destruct (loads (FileCache.serializer c) data) as [v|err] eqn:Hl;
        [|intros _; exact Hgone].
      simpl. intros -> later. rewrite tier_file_get, file_get_eq, Hf. cbv zeta.
      destruct (expired_at _ later); [reflexivity|]. now rewrite Hl.
    + simpl. intros _ later. now rewrite tier_file_get, file_get_eq, Hf.
Qed.

Section MultiLevelNone.
Local Open Scope list_scope.
Context {B : Type} `{CacheBackend.t B}.
Hypothesis law : none_is_no_value B.
Hypothesis keeps : none_adds_no_value B.

Lemma on_cache_middle {A} (m : M B A) clk (pre : list B) b (post : list B) :
  MultiLevelCache.on_cache (List.length pre) m (clk, pre ++ b :: post)
  = match m (clk, b) with
    | (r, (clk', b')) => (r, (clk', pre ++ b' :: post))
    end.
Proof.
  unfold MultiLevelCache.on_cache. simpl.
  rewrite list_lookup_middle by reflexivity.
  destruct (m (clk, b)) as [r [clk' b']].
  rewrite insert_app_r_alt by lia. rewrite Nat.sub_diag. reflexivity.
Qed.

Lemma seq_after {X} (pre : list X) (b : X) n :
  seq (S (List.length pre)) n = seq (List.length (pre ++ [b])) n.
Proof. rewrite length_app. simpl. f_equal. lia. Qed.

(** A tier that takes the [set] gives no value after it. *)
Lemma takes_none_absent (b : B) k ttl clk :
  takes_none k ttl b ->
  absent_at k (snd (snd (CacheBackend.set k PNone (Given ttl) (clk, b)))).
Proof. intros Hb. destruct (Hb clk); [now apply law|now apply keeps]. Qed.

Lemma set_from_none (post : list B) : forall (pre : list B) clk k ttl,
  Forall (takes_none k ttl) post ->
  exists clk' post',
    MultiLevelCache.set_from (seq (List.length pre) (List.length post)) k PNone ttl
      (clk, pre ++ post)
    = (Ok tt, (clk', pre ++ post'))
    /\ Forall (absent_at k) post'.
Proof.
  induction post as [|b post IH]; intros pre clk k ttl Hall; simpl.
  - exists clk, []. split; [reflexivity|constructor].
  - apply Forall_cons in Hall as [Hb0 Hall].
    unfold bind, try_except. rewrite on_cache_middle.
    pose proof (takes_none_absent b k ttl clk Hb0) as Hb.
    destruct (CacheBackend.set k PNone (Given ttl) (clk, b)) as [r [clk1 b1]].
    simpl in Hb.
    destruct (IH (pre ++ [b1]) clk1 k ttl Hall) as (clk' & post' & Hrest & Hall').
    rewrite <- seq_after, <- app_assoc in Hrest. simpl in Hrest.
    exists clk', (b1 :: post').
    split; [|now constructor].
    destruct r; unfold ret; rewrite Hrest, <- app_assoc; reflexivity.
Qed.

Lemma get_from_none (post : list B) : forall (pre : list B) clk k,
  Forall (absent_at k) post ->
  exists clk' post',
    MultiLevelCache.get_from (seq (List.length pre) (List.length post)) k (clk, pre ++ post)
    = (Ok PNone, (clk', pre ++ post')).
Proof.
  induction post as [|b post IH]; intros pre clk k Hall; simpl.
  - exists clk, []. reflexivity.
  - apply Forall_cons in Hall as [Hb Hall].
    unfold bind at 1, try_except, bind at 1. rewrite on_cache_middle.
    specialize (Hb clk).
    destruct (CacheBackend.get k (clk, b)) as [r [clk1 b1]]. simpl in Hb.
    destruct (IH (pre ++ [b1]) clk1 k Hall) as (clk' & post' & Hrest).
    rewrite <- seq_after, <- app_assoc in Hrest. simpl in Hrest.
    exists clk', (b1 :: post').
    destruct r as [v|e]; simpl in Hb; [subst v|]; simpl; unfold ret;
      rewrite Hrest, <- app_assoc; reflexivity.
Qed.

(** After [set(k, None)] on a composite, which never raises, no tier that
    took the [set] gives a value, so [get(k)] returns [None] and
    [exists(k)] is false. *)
Lemma multi_stored_none (caches : list B) k ttl clk :
  Forall (takes_none k ttl) caches ->
  exists clk' caches',
    MultiLevelCache.set k PNone ttl (clk, caches) = (Ok tt, (clk', caches'))
    /\ forall later,
         fst (MultiLevelCache.get k (later, caches')) = Ok PNone
         /\ fst (MultiLevelCache.exists_ k (later, caches')) = Ok false.
Proof.
  intros Htakes.
  destruct (set_from_none caches [] clk k ttl Htakes)
    as (clk' & caches' & Hset & Hall).
  exists clk', caches'. split; [exact Hset|]. intros later.
  destruct (get_from_none caches' [] later k Hall) as (clk'' & caches'' & Hget).
  simpl in Hget.
  assert (Hg : MultiLevelCache.get k (later, caches') = (Ok PNone, (clk'', caches'')))
    by exact Hget.
  unfold MultiLevelCache.exists_, bind, MultiLevelCache.t in *. rewrite Hg. auto.
Qed.

End MultiLevelNone.

Section SkipNone.
Context {B : Type} `{CacheBackend.t B}.

(** A tier that returns [None] does not end the search of [get]: the next
    tier is asked, and its answer is the composite's. *)
Lemma multi_get_skips_none (t0 t1 : B) k clk clk1 t0' r clk2 t1' :
  CacheBackend.get k (clk, t0) = (Ok PNone, (clk1, t0')) ->
  CacheBackend.get k (clk1, t1) = (r, (clk2, t1')) ->
  fst (MultiLevelCache.get k (clk, [t0; t1]))
  = Ok match r with Ok v => v | Raise _ => PNone end.
Proof.
  intros H0 H1. run_tiers. rewrite H0. run_tiers. rewrite H1.
  destruct r as [v|e]; [|reflexivity].
  destruct v; run_tiers; try reflexivity;
    destruct (CacheBackend.set k _ Omitted (clk2, t0')) as [[[]|e] [clk3 t0'']];
    reflexivity.
Qed.

(** The manager counts a [get] that returns [None] as a miss. *)
Lemma manager_counts_none_as_miss (mg : CacheManager.t B) backend b key clk clk' b' :
  selected mg backend = Some b ->
  CacheBackend.get key (clk, b) = (Ok PNone, (clk', b')) ->
  CacheManager.get key backend (clk, mg)
  = (Ok PNone, (clk', counted CacheManager.count_miss (put_selected backend b' mg))).
Proof. intros Hsel Hget. now rewrite manager_get_eq, Hsel, Hget. Qed.

Lemma selected_put (mg : CacheManager.t B) backend b f :
  selected (counted f (put_selected backend b mg)) backend = Some b
  /\ selected (put_selected backend b mg) backend = Some b.
Proof.
  destruct backend as [name|]; simpl; [|auto].
  now rewrite lookup_insert_eq.
Qed.

Variable wf : B -> Prop.
Hypothesis keeps : none_adds_no_value B.
Hypothesis stable :
  forall (b : B) k clk,
    wf b ->
    no_value (fst (CacheBackend.get k (clk, b))) ->
    absent_at k (snd (snd (CacheBackend.get k (clk, b)))).

(** After a lookup that gave no value, a [set(key, None)] through the
    manager, whether it returns or raises, leaves the key without a
    value. *)
Lemma manager_absent_after_set (mg : CacheManager.t B) key ttl backend clk r clk1
    mg1 clk2 later :
  (forall b, selected mg backend = Some b -> wf b) ->
  CacheManager.get key backend (clk, mg) = (r, (clk1, mg1)) ->
  no_value r ->
  no_value (fst (CacheManager.get key backend
                   (later, snd (snd (CacheManager.set key PNone ttl backend
                                       (clk2, mg1)))))).
Proof.
  intros Hwf. rewrite manager_get_eq.
  destruct (selected mg backend) as [b|] eqn:Hsel.
  - pose proof (stable b key clk (Hwf b eq_refl)) as Hb.
    destruct (CacheBackend.get key (clk, b)) as [r' [clk1' b1]].
    simpl in Hb.
    destruct r' as [v|e]; intros [= <- <- <-] Hno;
      (assert (Hb1 : absent_at key b1) by (apply Hb; simpl in *; auto));
      rewrite manager_set_eq, (proj1 (selected_put mg backend b1 _));
      pose proof (keeps b1 key (Given ttl) clk2 Hb1 later) as Hb3;
      destruct (CacheBackend.set key PNone (Given ttl) (clk2, b1))
        as [[[]|e'] [clk3 b3]];
      simpl in *; rewrite manager_get_eq;
      rewrite ?(proj1 (selected_put _ backend b3 _)),
              ?(proj2 (selected_put _ backend b3 id));
      destruct (CacheBackend.get key (later, b3)) as [[v'|e''] [clk4 b4]];
      simpl in *; auto.
  - intros [= <- <- <-] _.
    assert (Hsel' : selected (counted CacheManager.count_miss mg) backend = None)
      by (destruct backend; exact Hsel).
    rewrite manager_set_eq, Hsel'. simpl. now rewrite manager_get_eq, Hsel'.
Qed.

Section Memo.
Context {U Args : Type}.
Variable ttl : option Z.
Variable key_func : option (Args -> string).
Variable backend : option string.
Variable func : Args -> M U pyval.
Variable default_key : Args -> string.

Local Abbreviation wrapped := (wrapper ttl key_func backend func default_key).
Local Abbreviation run_func := (run_and_store ttl key_func backend func default_key).

(** A call that returns [None] ran the function, and so does every call
    that follows it: the [None] it stored is not served. *)
Lemma wrapper_reruns_none args w w' :
  (forall b, selected (fst (snd w)) backend = Some b -> wf b) ->
  wrapped args w = (Ok PNone, w') ->
  (exists clk1 mg1, wrapped args w = run_func args clk1 mg1 (snd (snd w)))
  /\ forall later,
       exists clk1 mg1,
         wrapped args (later, snd w') = run_func args clk1 mg1 (snd (snd w')).
Proof.
  destruct w as [clk [mg u]]. simpl. intros Hwf. rewrite wrapper_eq.
  destruct (CacheManager.get _ backend (clk, mg)) as [r [clk1 mg1]] eqn:Hget.
  assert (Hrun : no_value r ->
            run_func args clk1 mg1 u = (Ok PNone, w') ->
            forall later,
              exists clk2 mg2,
                wrapper ttl key_func backend func default_key args (later, snd w')
                = run_func args clk2 mg2 (snd (snd w'))).
  { intros Hno. unfold run_and_store.
    destruct (func args (clk1, u)) as [[res|e] [clk2 u2]]; [|discriminate].
    destruct (CacheManager.set _ res ttl backend (clk2, mg1)) as [rs [clk3 mg3]] eqn:Hset.
    intros [= -> <-] later. simpl.
    pose proof (manager_absent_after_set mg (cache_key_of key_func default_key args)
                  ttl backend clk r clk1 mg1 clk2 later Hwf Hget Hno) as Habs.
    rewrite Hset in Habs. simpl in Habs.
    rewrite wrapper_eq.
    destruct (CacheManager.get _ backend (later, mg3)) as [[v|e] [clk4 mg4]];
      simpl in Habs; [subst v|]; simpl; eauto. }
  destruct r as [v|e]; simpl.
  - destruct v; simpl; try discriminate. intros Hw. split; eauto.
    apply Hrun; [reflexivity|exact Hw].
  - intros Hw. split; eauto. apply Hrun; [exact I|exact Hw].
Qed.

End Memo.
End SkipNone.


(** C10, as stated for the composite, also fails when a tier does not take
    the [set]: the memory tier raises on a ttl beyond the range of a float,
    the composite swallows that, and the value the tier held is still
    served. *)
Lemma failed_set_keeps_the_old_value :
  fst ((MultiLevelCache.set "k" (PInt 5) None ;;
        MultiLevelCache.set "k" PNone (Some (2 ^ 1024)%Z) ;;
        MultiLevelCache.get "k")
         (ticking_clock, [Memory (fresh_memory 1000 None)]))
  = Ok (PInt 5).
Proof. vm_compute. reflexivity. Qed.



(** ** More about the memory cache *)


Lemma memory_wf_access c : memory_wf c -> is_dict (MemoryCache._access_times c).
Proof. intros [Hd Hk]. unfold is_dict in *. now rewrite <- Hk. Qed.

Lemma popped_spec c k :
  memory_wf c ->
  Dict.getitem k (MemoryCache._cache (popped k c)) = None
  /\ Dict.getitem k (MemoryCache._access_times (popped k c)) = None
  /\ same_except k c (popped k c)
  /\ memory_wf (popped k c).
Proof.
  intros Hwf. pose proof (memory_wf_access c Hwf) as Ha. destruct Hwf as [Hd Hk].
  repeat split; simpl;
    auto using getitem_pop_eq, getitem_pop_ne, is_dict_pop, keys_pop.
Qed.


(** X2  Lazy expiry: a [get] or an [exists] that finds the entry expired
    removes the key from both dicts and touches no other entry. *)
Theorem memory_expired_entry_is_purged (c : MemoryCache.t) (k : string)
    (item : MemoryCache.entry) (clk : Clock) :
  memory_wf c ->
  Dict.getitem k (MemoryCache._cache c) = Some item ->
  expired_at (MemoryCache.expires_at item) clk = true ->
  exists clk' c',
    MemoryCache.get k (clk, c) = (Ok PNone, (clk', c'))
    /\ MemoryCache.exists_ k (clk, c) = (Ok false, (clk', c'))
    /\ Dict.getitem k (MemoryCache._cache c') = None
    /\ Dict.getitem k (MemoryCache._access_times c') = None
    /\ same_except k c c'
    /\ memory_wf c'.
Proof.
  intros Hwf Hget Hexp.
  destruct (popped_spec c k Hwf) as (H1 & H2 & H3 & H4).
  exists (after_expiry clk (MemoryCache.expires_at item)), (popped k c).
  rewrite memory_get_eq, memory_exists_eq, Hget. simpl.
  unfold expired_at in Hexp. rewrite Hexp. unfold expired_at. rewrite Hexp.
  auto 10.
Qed.

Lemma memory_expired_entry_is_purged_witness :
  exists clk' c',
    MemoryCache.get "k"
      (stepping_clock 10,
       {| MemoryCache.max_size := 5; MemoryCache.default_ttl := None;
          MemoryCache._cache :=
            [("k", {| MemoryCache.value := PInt 1; MemoryCache.created_at := 0;
                      MemoryCache.expires_at := Some (-1)%Z |})];
          MemoryCache._access_times := [("k", 0%Z)] |})
    = (Ok PNone, (clk', c'))
    /\ MemoryCache.exists_ "k"
         (stepping_clock 10,
          {| MemoryCache.max_size := 5; MemoryCache.default_ttl := None;
             MemoryCache._cache :=
               [("k", {| MemoryCache.value := PInt 1; MemoryCache.created_at := 0;
                         MemoryCache.expires_at := Some (-1)%Z |})];
             MemoryCache._access_times := [("k", 0%Z)] |})
       = (Ok false, (clk', c'))
    /\ Dict.getitem "k" (MemoryCache._cache c') = None
    /\ Dict.getitem "k" (MemoryCache._access_times c') = None
    /\ same_except "k"
         {| MemoryCache.max_size := 5; MemoryCache.default_ttl := None;
            MemoryCache._cache :=
              [("k", {| MemoryCache.value := PInt 1; MemoryCache.created_at := 0;
                        MemoryCache.expires_at := Some (-1)%Z |})];
            MemoryCache._access_times := [("k", 0%Z)] |} c'
    /\ memory_wf c'.
Proof.
  apply (memory_expired_entry_is_purged _ "k"
           {| MemoryCache.value := PInt 1; MemoryCache.created_at := 0;
              MemoryCache.expires_at := Some (-1)%Z |});
    [split; [compute_done|reflexivity]|reflexivity|reflexivity].
Defined.

(** X3  [delete] returns true exactly when the key is present, expired or
    not; afterwards the key is in neither dict, every other entry is as it
    was, and a second [delete] returns false. *)
Theorem memory_delete_spec (c : MemoryCache.t) (k : string) (clk : Clock) :
  memory_wf c ->
  exists c',
    MemoryCache.delete k (clk, c)
    = (Ok (Dict.contains k (MemoryCache._cache c)), (clk, c'))
    /\ Dict.getitem k (MemoryCache._cache c') = None
    /\ Dict.getitem k (MemoryCache._access_times c') = None
    /\ same_except k c c'
    /\ MemoryCache.delete k (clk, c') = (Ok false, (clk, c')).
Proof.
  intros Hwf. rewrite delete_eq.
  destruct (Dict.contains k (MemoryCache._cache c)) eqn:Hc.
  - destruct (popped_spec c k Hwf) as (H1 & H2 & H3 & H4).
    exists (popped k c). repeat split; auto; try apply H3; auto.
    rewrite delete_eq. unfold Dict.contains. now rewrite H1.
  - exists c. pose proof Hc as Hc'. unfold Dict.contains in Hc'.
    destruct (Dict.getitem k (MemoryCache._cache c)) eqn:Hg; [discriminate|].
    destruct Hwf as [_ Hk]. rewrite (contains_keys _ _ k Hk) in Hc.
    unfold Dict.contains in Hc.
    destruct (Dict.getitem k (MemoryCache._access_times c)); [discriminate|].
    repeat split; auto. rewrite delete_eq. unfold Dict.contains. now rewrite Hg.
Qed.

Lemma memory_delete_spec_witness :
  let c :=
    {| MemoryCache.max_size := 3; MemoryCache.default_ttl := None;
       MemoryCache._cache :=
         [("j", {| MemoryCache.value := PInt 1; MemoryCache.created_at := 0;
                   MemoryCache.expires_at := None |});
          ("k", {| MemoryCache.value := PInt 2; MemoryCache.created_at := 2;
                   MemoryCache.expires_at := Some 1%Z |})];
       MemoryCache._access_times := [("j", 1%Z); ("k", 3%Z)] |} in
  exists c',
    MemoryCache.delete "k" (stepping_clock 10, c)
    = (Ok (Dict.contains "k" (MemoryCache._cache c)), (stepping_clock 10, c'))
    /\ Dict.getitem "k" (MemoryCache._cache c') = None
    /\ Dict.getitem "k" (MemoryCache._access_times c') = None
    /\ same_except "k" c c'
    /\ MemoryCache.delete "k" (stepping_clock 10, c')
       = (Ok false, (stepping_clock 10, c')).
Proof.
  intros c. apply memory_delete_spec. split; [compute_done|reflexivity].
Defined.

Lemma made_room_present key c :
  Dict.contains key (MemoryCache._cache c) = true -> made_room key c = c.
Proof. intros Hc. unfold made_room. now rewrite Hc, andb_false_r. Qed.

(** X4  Overwriting a key that is present evicts nothing, whatever the
    size of the cache and whether [set] returns or raises on its expiry:
    the keys of both dicts, their order and every other entry stay as they
    were. *)
Theorem memory_overwrite_evicts_nothing (c : MemoryCache.t) (k : string)
    (v : pyval) (ttl : ttl_arg) (clk : Clock) :
  Dict.keys (MemoryCache._cache c) = Dict.keys (MemoryCache._access_times c) ->
  Dict.contains k (MemoryCache._cache c) = true ->
  let after := MemoryCache.set k v ttl (clk, c) in
  let c' := snd (snd after) in
  fst after
  = (if overflows (memory_ttl (MemoryCache.default_ttl c) ttl)
     then Raise OverflowError else Ok tt)
  /\ Dict.keys (MemoryCache._cache c') = Dict.keys (MemoryCache._cache c)
  /\ Dict.keys (MemoryCache._access_times c')
     = Dict.keys (MemoryCache._access_times c)
  /\ same_except k c c'.
Proof.
  intros Hk Hc. cbv zeta. rewrite memory_set_eq, (made_room_present k c Hc).
  cbv zeta. destruct (overflows _); simpl.
  - repeat split; auto.
  - split; [reflexivity|].
    split; [now apply keys_setitem_present|].
    split; [apply keys_setitem_present; now rewrite <- (contains_keys _ _ k Hk)|].
    intros k' Hne. simpl. split; now apply getitem_setitem_ne.
Qed.

Lemma memory_overwrite_evicts_nothing_witness :
  let c :=
    {| MemoryCache.max_size := 2; MemoryCache.default_ttl := None;
       MemoryCache._cache :=
         [("j", {| MemoryCache.value := PInt 0; MemoryCache.created_at := 0;
                   MemoryCache.expires_at := None |});
          ("k", {| MemoryCache.value := PInt 1; MemoryCache.created_at := 2;
                   MemoryCache.expires_at := None |})];
       MemoryCache._access_times := [("j", 1%Z); ("k", 3%Z)] |} in
  let after := MemoryCache.set "k" (PInt 2) (Given (Some 5%Z)) (stepping_clock 10, c) in
  let c' := snd (snd after) in
  fst after
  = (if overflows (memory_ttl (MemoryCache.default_ttl c) (Given (Some 5%Z)))
     then Raise OverflowError else Ok tt)
  /\ Dict.keys (MemoryCache._cache c') = Dict.keys (MemoryCache._cache c)
  /\ Dict.keys (MemoryCache._access_times c')
     = Dict.keys (MemoryCache._access_times c)
  /\ same_except "k" c c'.
Proof.
  intros c. apply (memory_overwrite_evicts_nothing c); reflexivity.
Defined.

(** [min] finds the first of the smallest values: everything before it is
    strictly greater, everything after it is at least as great. *)
Lemma min_from_spec (rest : list (string * Z)) : forall best,
  exists pre a post,
    best :: rest = (pre ++ (MemoryCache.min_from best rest, a) :: post)%list
    /\ Forall (fun p => (a < snd p)%Z) pre
    /\ Forall (fun p => (a <= snd p)%Z) post.
Proof.
  induction rest as [|[k x] rest IH]; intros [kb xb]; simpl.
  - exists [], xb, []. repeat split; constructor.
  - destruct (Z.ltb_spec x xb) as [Hlt|Hge].
    + destruct (IH (k, x)) as (pre & a & post & Heq & Hpre & Hpost).
      exists ((kb, xb) :: pre), a, post. simpl. rewrite Heq.
      repeat split; auto. constructor; [|exact Hpre]. simpl.
      destruct pre as [|p pre]; simpl in Heq.
      * injection Heq as _ <- _. exact Hlt.
      * injection Heq as <- _. apply Forall_cons in Hpre as [Hp _]. simpl in Hp. lia.
    + destruct (IH (kb, xb)) as (pre & a & post & Heq & Hpre & Hpost).
      destruct pre as [|p pre]; simpl in Heq.
      * injection Heq as Hm <- <-.
        exists [], xb, ((k, x) :: rest). simpl. rewrite <- Hm.
        repeat split; constructor; auto.
      * injection Heq as <- Hrest.
        exists ((kb, xb) :: (k, x) :: pre), a, post. simpl.
        apply Forall_cons in Hpre as [Hp Hpre]. simpl in Hp.
        split; [now do 2 f_equal|]. split; [|exact Hpost].
        constructor; [exact Hp|]. constructor; [simpl; lia|exact Hpre].
Qed.

(** X5  LRU eviction: a [set] of a new key into a cache that is full and
    holds an entry removes exactly the entry with the smallest access time,
    the first such in iteration order; no other entry changes.  The new
    key is then appended, unless the expiry overflows: then [set] raises
    [OverflowError] with the eviction done and the new key not stored. *)
Theorem lru_evicts_least_recent (c : MemoryCache.t) (key : string) (v : pyval)
    (ttl : ttl_arg) (clk : Clock) :
  memory_wf c ->
  (MemoryCache.max_size c <= Dict.len (MemoryCache._cache c))%Z ->
  Dict.contains key (MemoryCache._cache c) = false ->
  MemoryCache._cache c <> [] ->
  exists victim a pre post,
    MemoryCache._access_times c = (pre ++ (victim, a) :: post)%list
    /\ Forall (fun p => (a < snd p)%Z) pre
    /\ Forall (fun p => (a <= snd p)%Z) post
    /\ let after := MemoryCache.set key v ttl (clk, c) in
       let c' := snd (snd after) in
       let raised := overflows (memory_ttl (MemoryCache.default_ttl c) ttl) in
       fst after = (if raised then Raise OverflowError else Ok tt)
       /\ Dict.keys (MemoryCache._access_times c')
          = (Dict.keys (pre ++ post) ++ (if raised then [] else [key]))%list
       /\ Dict.keys (MemoryCache._cache c') = Dict.keys (MemoryCache._access_times c')
       /\ Dict.getitem victim (MemoryCache._cache c') = None
       /\ forall k', k' <> victim -> k' <> key ->
            Dict.getitem k' (MemoryCache._cache c')
            = Dict.getitem k' (MemoryCache._cache c).
Proof.
  intros Hwf Hfull Hnew Hne.
  pose proof (memory_wf_access c Hwf) as Hda. destruct Hwf as [Hd Hk].
  destruct (MemoryCache._access_times c) as [|first rest] eqn:Hat.
  { destruct (MemoryCache._cache c); [contradiction|discriminate]. }
  destruct (min_from_spec rest first) as (pre & a & post & Heq & Hpre & Hpost).
  set (victim := MemoryCache.min_from first rest) in *.
  assert (Hvin : Dict.contains victim (MemoryCache._cache c) = true).
  { rewrite (contains_keys _ _ victim Hk). apply min_from_contains. }
  assert (Hvk : victim <> key) by (intros ->; congruence).
  assert (Hvpre : victim ∉ Dict.keys pre).
  { unfold is_dict in Hda. rewrite Heq in Hda. unfold Dict.keys in Hda.
    rewrite map_app in Hda. simpl in Hda.
    apply NoDup_app in Hda as (_ & Hdisj & _). intros Hin.
    apply (Hdisj victim Hin). left. }
  assert (Hkacc : Dict.contains key (first :: rest) = false)
    by (now rewrite <- (contains_keys _ _ key Hk)).
  assert (Hpop : Dict.pop victim (first :: rest) = (pre ++ post)%list)
    by (rewrite Heq; now apply pop_middle).
  assert (Hroom : made_room key c = popped victim c).
  { unfold made_room, evicted.
    rewrite (proj2 (Z.leb_le _ _) Hfull), Hnew, Hat. simpl.
    fold victim. now rewrite Hvin. }
  exists victim, a, pre, post.
  split; [exact Heq|]. split; [exact Hpre|]. split; [exact Hpost|].
  cbv zeta. rewrite memory_set_eq, Hroom. cbv zeta.
  destruct (overflows _); simpl; rewrite Hat; (split; [reflexivity|]).
  - split; [now rewrite Hpop, app_nil_r|].
    split; [apply keys_pop; now rewrite Hk|].
    split; [now apply getitem_pop_eq|].
    intros k' H1 _. now apply getitem_pop_ne.
  - split.
    + rewrite Hpop, setitem_absent.
      * unfold Dict.keys. now rewrite !map_app.
      * rewrite <- Hpop. apply contains_not_in. intros Hin.
        apply keys_pop_sub in Hin. now apply contains_not_in in Hkacc.
    + split; [apply keys_setitem, keys_pop; now rewrite Hk|].
      split.
      * rewrite getitem_setitem_ne by exact Hvk. now apply getitem_pop_eq.
      * intros k' H1 H2. rewrite getitem_setitem_ne by exact H2.
        now apply getitem_pop_ne.
Qed.

Lemma lru_evicts_least_recent_witness :
  let c :=
    {| MemoryCache.max_size := 2; MemoryCache.default_ttl := None;
       MemoryCache._cache :=
         [("a", {| MemoryCache.value := PInt 1; MemoryCache.created_at := 0;
                   MemoryCache.expires_at := None |});
          ("b", {| MemoryCache.value := PInt 2; MemoryCache.created_at := 1;
                   MemoryCache.expires_at := None |})];
       MemoryCache._access_times := [("a", 5%Z); ("b", 3%Z)] |} in
  exists victim a pre post,
    MemoryCache._access_times c = (pre ++ (victim, a) :: post)%list
    /\ Forall (fun p => (a < snd p)%Z) pre
    /\ Forall (fun p => (a <= snd p)%Z) post
    /\ let after := MemoryCache.set "n" (PInt 3) (Given (Some 60%Z)) (ticking_clock, c) in
       let c' := snd (snd after) in
       let raised :=
         overflows (memory_ttl (MemoryCache.default_ttl c) (Given (Some 60%Z))) in
       fst after = (if raised then Raise OverflowError else Ok tt)
       /\ Dict.keys (MemoryCache._access_times c')
          = (Dict.keys (pre ++ post) ++ (if raised then [] else ["n"]))%list
       /\ Dict.keys (MemoryCache._cache c') = Dict.keys (MemoryCache._access_times c')
       /\ Dict.getitem victim (MemoryCache._cache c') = None
       /\ forall k', k' <> victim -> k' <> "n" ->
            Dict.getitem k' (MemoryCache._cache c')
            = Dict.getitem k' (MemoryCache._cache c).
Proof.
  intros c. apply lru_evicts_least_recent;
    [split; [compute_done|reflexivity]|discriminate|reflexivity|discriminate].
Defined.

Section MemoryOk.
Variable m : Z.
Implicit Types (c : MemoryCache.t) (clk : Clock).

Lemma ok_ret {A} (a : A) : keeps_ok m (ret a).
Proof. intros clk c Hc. now exists a, clk, c. Qed.

Lemma ok_bind {A B} (op : M MemoryCache.t A) (f : A -> M MemoryCache.t B) :
  keeps_ok m op -> (forall a, keeps_ok m (f a)) -> keeps_ok m (bind op f).
Proof.
  intros Hop Hf clk c Hc. unfold bind.
  destruct (Hop clk c Hc) as (a & clk' & c' & -> & Hc').
  exact (Hf a clk' c' Hc').
Qed.

Lemma ok_popped c key : memory_ok m c -> memory_ok m (popped key c).
Proof.
  intros (Hm & Hwf & Hl). split; [exact Hm|]. split.
  - now apply popped_spec.
  - simpl. pose proof (len_pop_le (MemoryCache._cache c) key). lia.
Qed.

Lemma ok_touch c key t :
  memory_ok m c ->
  Dict.contains key (MemoryCache._cache c) = true ->
  memory_ok m (MemoryCache.with_access_times (Dict.setitem key t) c).
Proof.
  intros (Hm & [Hd Hk] & Hl) Hc. repeat split; simpl; auto.
  rewrite keys_setitem_present; auto.
  now rewrite <- (contains_keys _ _ key Hk).
Qed.

Lemma ok_delete key : keeps_ok m (MemoryCache.delete key).
Proof.
  intros clk c Hc. rewrite delete_eq.
  destruct (Dict.contains key (MemoryCache._cache c)); eauto 6 using ok_popped.
Qed.

Lemma ok_get key : keeps_ok m (MemoryCache.get key).
Proof.
  intros clk c Hc. rewrite memory_get_eq.
  destruct (Dict.getitem key (MemoryCache._cache c)) as [item|] eqn:Hget; [|eauto].
  simpl. destruct (match MemoryCache.expires_at item with Some _ => _ | None => _ end).
  - do 3 eexists. split; [reflexivity|]. now apply ok_popped.
  - do 3 eexists. split; [reflexivity|]. eauto using ok_touch, getitem_contains.
Qed.

Lemma ok_exists key : keeps_ok m (MemoryCache.exists_ key).
Proof.
  intros clk c Hc. rewrite memory_exists_eq.
  destruct (Dict.getitem key (MemoryCache._cache c)) as [item|] eqn:Hget; [|eauto].
  simpl. destruct (expired_at _ _).
  - do 3 eexists. split; [reflexivity|]. now apply ok_popped.
  - eauto.
Qed.

Lemma ok_clear : keeps_ok m MemoryCache.clear.
Proof.
  intros clk c (Hm & _ & _). unfold MemoryCache.clear, bind, modify. simpl.
  do 3 eexists. split; [reflexivity|].
  repeat split; simpl; auto; [constructor|unfold Dict.len; simpl; lia].
Qed.

Lemma ok_delete_each ks : keeps_ok m (MemoryCache.delete_each ks).
Proof.
  induction ks as [|key ks IH]; simpl; [apply ok_ret|].
  apply ok_bind; [apply ok_delete|intros _; exact IH].
Qed.

Lemma ok_keys : keeps_ok m MemoryCache.keys.
Proof.
  intros clk c Hc. unfold MemoryCache.keys, bind at 1, self. simpl.
  unfold bind at 1.
  destruct (expired_keys_eq (MemoryCache._cache c) clk c) as (ks & clk1 & ->).
  apply ok_bind; [apply ok_delete_each| |exact Hc].
  intros _ clk2 c2 Hc2. unfold bind, self, ret. simpl. eauto.
Qed.

Lemma ok_evicted c : memory_ok m c -> memory_ok m (evicted c).
Proof.
  intros Hc. unfold evicted.
  destruct (MemoryCache._access_times c); [exact Hc|].
  destruct (Dict.contains _ _); [now apply ok_popped|exact Hc].
Qed.

(** After the capacity check of [set] the key is there or there is room. *)
Lemma ok_made_room key c :
  memory_ok m c ->
  memory_ok m (made_room key c)
  /\ (Dict.contains key (MemoryCache._cache (made_room key c)) = true
      \/ (Dict.len (MemoryCache._cache (made_room key c)) < Z.max 1 m)%Z).
Proof.
  intros Hc. unfold made_room. pose proof Hc as (Hm & [Hd Hk] & Hl). rewrite Hm.
  destruct (Z.leb_spec m (Dict.len (MemoryCache._cache c))) as [Hfull|Hroom];
    simpl; [|split; [exact Hc|right; lia]].
  destruct (Dict.contains key (MemoryCache._cache c)) eqn:Hin; simpl;
    [split; [exact Hc|now left]|].
  split; [now apply ok_evicted|]. right. unfold evicted.
  destruct (MemoryCache._access_times c) as [|first rest] eqn:Hat.
  - destruct (MemoryCache._cache c); [|discriminate Hk].
    unfold Dict.len. simpl. lia.
  - pose proof (min_from_contains first rest) as Hmin.
    rewrite <- (contains_keys _ _ _ Hk) in Hmin. rewrite Hmin. simpl.
    rewrite len_pop by exact Hmin. lia.
Qed.

(** [set] keeps the state also when it raises on its expiry. *)
Lemma ok_set key v ttl : upholds (memory_ok m) (MemoryCache.set key v ttl).
Proof.
  intros clk c Hc. rewrite memory_set_eq. cbv zeta.
  destruct (ok_made_room key c Hc) as ((Hm & [Hd Hk] & Hl) & Hroom).
  destruct (overflows _); simpl; [repeat split; auto|].
  repeat split; simpl; auto using is_dict_setitem, keys_setitem.
  rewrite len_setitem.
  destruct (Dict.contains key (MemoryCache._cache (made_room key c))); [lia|].
  destruct Hroom; [discriminate|lia].
Qed.

Lemma ok_upholds {A} (op : M MemoryCache.t A) :
  keeps_ok m op -> upholds (memory_ok m) op.
Proof.
  intros Hop clk c Hc. now destruct (Hop clk c Hc) as (a & clk' & c' & -> & Hc').
Qed.

Lemma ok_attempt (op : M MemoryCache.t unit) :
  upholds (memory_ok m) op -> keeps_ok m (try_except op (fun _ => ret tt)).
Proof.
  intros Hop clk c Hc. specialize (Hop clk c Hc). unfold try_except, ret.
  destruct (op (clk, c)) as [[[]|e] [clk' c']]; eauto.
Qed.

Lemma ok_run_ops ops : keeps_ok m (run_ops ops).
Proof.
  induction ops as [|o ops IH]; simpl; [apply ok_ret|].
  apply ok_bind; [|intros _; exact IH].
  apply ok_attempt.
  destruct o; simpl; auto using ok_set; apply ok_upholds;
    auto using ok_clear;
    (apply ok_bind; [|intros _; apply ok_ret]);
    auto using ok_get, ok_delete, ok_exists, ok_keys.
Qed.

End MemoryOk.

(** X6  Whatever [max_size] a memory cache is built with, zero and
    negative ones included, after every sequence of operations, the caller
    going on after a [set] that raised [OverflowError], the two dicts have
    the same unique keys, and the cache holds no more than
    [max(1, max_size)] entries: a cache with [max_size <= 0] still stores
    one entry. *)
Theorem memory_cache_bound_for_any_max_size
    (max_size : Z) (default_ttl : option Z) (ops : list op) (clk : Clock) :
  exists clk' c',
    run_ops ops (clk, fresh_memory max_size default_ttl) = (Ok tt, (clk', c'))
    /\ memory_wf c'
    /\ (Dict.len (MemoryCache._cache c') <= Z.max 1 max_size)%Z.
Proof.
  destruct (ok_run_ops max_size ops clk (fresh_memory max_size default_ttl))
    as ([] & clk' & c' & Hrun & _ & Hwf & Hl).
  - repeat split; simpl; auto; [constructor|unfold Dict.len; simpl; lia].
  - eauto.
Qed.

Lemma expired_keys_frozen (t : Z) (items : list (string * MemoryCache.entry)) :
  forall clk c,
    (forall n, oracle clk n = t) ->
    exists clk',
      MemoryCache.expired_keys items (clk, c)
      = (Ok (Dict.keys (List.filter (fun p => negb (live_at t p)) items)), (clk', c)).
Proof.
  induction items as [|[key item] items IH]; intros clk c Hfrozen; simpl.
  - unfold ret. eauto.
  - assert (Hhead : negb (live_at t (key, item))
                    = match MemoryCache.expires_at item with
                      | Some e => (e <? t)%Z
                      | None => false
                      end).
    { unfold live_at. simpl.
      destruct (MemoryCache.expires_at item); [apply negb_involutive|reflexivity]. }
    rewrite Hhead. unfold MemoryCache._is_expired.
    destruct (MemoryCache.expires_at item) as [e|].
    + unfold bind, time_time, ret. simpl. rewrite Hfrozen.
      destruct (IH (tick clk) c) as (clk' & Hrest); [exact Hfrozen|].
      unfold bind, ret in Hrest. rewrite Hrest.
      destruct (e <? t)%Z; eauto.
    + unfold bind, ret. simpl.
      destruct (IH clk c Hfrozen) as (clk' & Hrest).
      unfold bind, ret in Hrest. rewrite Hrest. eauto.
Qed.

Lemma delete_each_cache (ks : list string) : forall clk c,
  Dict.keys (MemoryCache._cache c) = Dict.keys (MemoryCache._access_times c) ->
  exists c',
    MemoryCache.delete_each ks (clk, c) = (Ok tt, (clk, c'))
    /\ MemoryCache._cache c'
       = fold_left (fun d k => Dict.pop k d) ks (MemoryCache._cache c)
    /\ Dict.keys (MemoryCache._cache c') = Dict.keys (MemoryCache._access_times c').
Proof.
  induction ks as [|k ks IH]; intros clk c Hk; simpl.
  - unfold ret. eauto.
  - unfold bind. rewrite delete_eq.
    destruct (Dict.contains k (MemoryCache._cache c)) eqn:Hc.
    + destruct (IH clk (popped k c)) as (c' & Heq & Hcache & Hk');
        [simpl; now apply keys_pop|].
      unfold popped in Heq. rewrite Heq. eauto.
    + destruct (IH clk c Hk) as (c' & Heq & Hcache & Hk').
      rewrite Heq, (pop_absent _ _ Hc). eauto.
Qed.

Lemma fold_pop_cons {V} (ks : list string) : forall (d : Dict.t V) k v,
  k ∉ ks ->
  fold_left (fun d k => Dict.pop k d) ks ((k, v) :: d)
  = (k, v) :: fold_left (fun d k => Dict.pop k d) ks d.
Proof.
  induction ks as [|k0 ks IH]; intros d k v Hn; simpl; [reflexivity|].
  apply not_elem_of_cons in Hn as [Hne Hn].
  rewrite (proj2 (String.eqb_neq k0 k)) by congruence. now apply IH.
Qed.

Lemma keys_filter_sub {V} (P : string * V -> bool) (d : Dict.t V) x :
  x ∈ Dict.keys (List.filter P d) -> x ∈ Dict.keys d.
Proof.
  induction d as [|p d IH]; simpl; [auto|].
  destruct (P p); simpl.
  - inversion 1; subst; [left|right; auto].
  - intros Hin. right. auto.
Qed.

Lemma fold_pop_filter {V} (P : string * V -> bool) (d : Dict.t V) :
  is_dict d ->
  fold_left (fun d k => Dict.pop k d) (Dict.keys (List.filter P d)) d
  = List.filter (fun p => negb (P p)) d.
Proof.
  unfold is_dict.
  induction d as [|[k v] d IH]; simpl; [reflexivity|].
  intros Hnd. apply NoDup_cons in Hnd as [Hn Hnd].
  destruct (P (k, v)); simpl.
  - rewrite String.eqb_refl. auto.
  - rewrite fold_pop_cons; [now rewrite IH|].
    intros Hin. apply Hn. eauto using keys_filter_sub.
Qed.

(** X7  [keys] during which the clock shows [t] returns, in insertion
    order, exactly the keys whose entry has no expiry or an expiry not
    before [t], and leaves exactly those entries in the cache. *)
Theorem memory_keys_lists_live_entries (c : MemoryCache.t) (clk : Clock) (t : Z) :
  memory_wf c ->
  (forall n, oracle clk n = t) ->
  exists clk' c',
    MemoryCache.keys (clk, c)
    = (Ok (Dict.keys (List.filter (live_at t) (MemoryCache._cache c))), (clk', c'))
    /\ MemoryCache._cache c' = List.filter (live_at t) (MemoryCache._cache c)
    /\ Dict.keys (MemoryCache._access_times c') = Dict.keys (MemoryCache._cache c').
Proof.
  intros [Hd Hk] Hfrozen.
  unfold MemoryCache.keys, bind at 1, self. simpl. unfold bind at 1.
  destruct (expired_keys_frozen t (MemoryCache._cache c) clk c Hfrozen) as (clk1 & ->).
  unfold bind at 1.
  destruct (delete_each_cache
              (Dict.keys (List.filter (fun p => negb (live_at t p)) (MemoryCache._cache c)))
              clk1 c Hk) as (c' & -> & Hcache & Hk').
  rewrite fold_pop_filter in Hcache by exact Hd.
  assert (Hlive : MemoryCache._cache c' = List.filter (live_at t) (MemoryCache._cache c)).
  { rewrite Hcache. apply List.filter_ext. intros p. apply negb_involutive. }
  unfold bind, self, ret. simpl. rewrite Hlive.
  do 2 eexists. split; [reflexivity|]. split; [exact Hlive|]. now rewrite <- Hk', Hlive.
Qed.

Lemma memory_keys_lists_live_entries_witness :
  let c :=
    {| MemoryCache.max_size := 5; MemoryCache.default_ttl := None;
       MemoryCache._cache :=
         [("old", {| MemoryCache.value := PInt 1; MemoryCache.created_at := 0;
                     MemoryCache.expires_at := Some 3%Z |});
          ("kept", {| MemoryCache.value := PInt 2; MemoryCache.created_at := 1;
                      MemoryCache.expires_at := None |})];
       MemoryCache._access_times := [("old", 0%Z); ("kept", 1%Z)] |} in
  exists clk' c',
    MemoryCache.keys (frozen_clock 7, c)
    = (Ok (Dict.keys (List.filter (live_at 7) (MemoryCache._cache c))), (clk', c'))
    /\ MemoryCache._cache c' = List.filter (live_at 7) (MemoryCache._cache c)
    /\ Dict.keys (MemoryCache._access_times c') = Dict.keys (MemoryCache._cache c').
Proof.
  intros c. apply memory_keys_lists_live_entries;
    [split; [compute_done|reflexivity]|reflexivity].
Defined.

(** ** More about the file cache *)



(** Which serialisers reject a value with a cache error. *)
Lemma dumps_raises serializer v e :
  dumps serializer v = Raise e ->
  e = CacheSerializationError <-> serializer <> "pickle" /\ serializer <> "json".
Proof.
  unfold dumps.
  destruct (String.eqb_spec serializer "pickle") as [Hp|Hp];
    [|destruct (String.eqb_spec serializer "json") as [Hj|Hj]].
  - destruct v; simpl; try discriminate. intros [= <-].
    split; [discriminate|]. intros [H _]. contradiction.
  - destruct v; simpl; try discriminate; intros [= <-];
      (split; [discriminate|]); intros [_ H]; contradiction.
  - intros [= <-]. split; auto.
Qed.

Lemma dumps_accepts serializer v data :
  dumps serializer v = Ok data -> serializer = "pickle" \/ serializer = "json".
Proof.
  unfold dumps.
  destruct (String.eqb_spec serializer "pickle") as [Hp|Hp]; [auto|].
  destruct (String.eqb_spec serializer "json") as [Hj|Hj]; [auto|discriminate].
Qed.

(** X9  A [set] that raises.  With a ttl in force that is an int beyond
    the range of a float it raises [OverflowError].  Otherwise, when the
    serialiser does not accept the value, what the serialiser raised comes
    out as it is; it is [CacheSerializationError] when the serialiser is
    neither ['pickle'] nor ['json'].  Otherwise the write failed, and
    [set] raises [CacheSerializationError].  The directory is left as it
    was, except when the file was opened and the dump failed: the file of
    the key is then left truncated. *)
Theorem file_set_failure (c : FileCache.t) (k : string) (v : pyval)
    (ttl : option Z) (clk : Clock) (e : exn) :
  fst (FileCache.set k v ttl (clk, c)) = Raise e ->
  let c' := snd (snd (FileCache.set k v ttl (clk, c))) in
  let ttl' := file_ttl (FileCache.default_ttl c) ttl in
  let fault := FileCache.faults c !! FileCache._get_cache_file k in
  (if overflows ttl' then e = OverflowError /\ c' = c
   else
     match dumps (FileCache.serializer c) v with
     | Raise e0 => e = e0 /\ c' = c
     | Ok _ =>
         e = CacheSerializationError
         /\ ((fault = Some FileCache.OpenFails /\ c' = c)
             \/ (fault = Some FileCache.DumpFails
                 /\ c' = FileCache.with_cache_dir
                           (<[FileCache._get_cache_file k := FileCache.Unreadable]>)
                           c))
     end)
  /\ (overflows ttl' = false ->
      FileCache.serializer c <> "pickle" -> FileCache.serializer c <> "json" ->
      e = CacheSerializationError).
Proof.
  cbv zeta. rewrite file_set_eq. cbv zeta.
  destruct (overflows _) eqn:Hov; simpl.
  { intros [= <-]. split; [auto|discriminate]. }
  destruct (dumps (FileCache.serializer c) v) as [data|e0] eqn:Hd; simpl.
  - pose proof (dumps_accepts _ _ _ Hd) as Hknown.
    destruct (FileCache.faults c !! FileCache._get_cache_file k) as [[]|];
      simpl; try discriminate; intros [= <-]; auto.
  - intros [= <-]. split; [auto|]. intros _ Hp Hj.
    unfold dumps in Hd.
    destruct (String.eqb_spec (FileCache.serializer c) "pickle"); [contradiction|].
    destruct (String.eqb_spec (FileCache.serializer c) "json"); [contradiction|].
    now injection Hd as <-.
Qed.

Lemma file_set_failure_witness :
  let c :=
    {| FileCache.cache_dir := ∅;
       FileCache.faults := {[FileCache._get_cache_file "k" := FileCache.DumpFails]};
       FileCache.default_ttl := None; FileCache.serializer := "pickle" |} in
  let c' := snd (snd (FileCache.set "k" (PInt 1) None (ticking_clock, c))) in
  let ttl' := file_ttl (FileCache.default_ttl c) None in
  let fault := FileCache.faults c !! FileCache._get_cache_file "k" in
  (if overflows ttl' then CacheSerializationError = OverflowError /\ c' = c
   else
     match dumps (FileCache.serializer c) (PInt 1) with
     | Raise e0 => CacheSerializationError = e0 /\ c' = c
     | Ok _ =>
         CacheSerializationError = CacheSerializationError
         /\ ((fault = Some FileCache.OpenFails /\ c' = c)
             \/ (fault = Some FileCache.DumpFails
                 /\ c' = FileCache.with_cache_dir
                           (<[FileCache._get_cache_file "k" := FileCache.Unreadable]>)
                           c))
     end)
  /\ (overflows ttl' = false ->
      FileCache.serializer c <> "pickle" -> FileCache.serializer c <> "json" ->
      CacheSerializationError = CacheSerializationError).
Proof.
  intros c. apply (file_set_failure c "k" (PInt 1) None ticking_clock).
  vm_compute. reflexivity.
Defined.



Lemma file_delete_eq key clk c :
  FileCache.delete key (clk, c)
  = match FileCache.cache_dir c !! FileCache._get_cache_file key with
    | Some _ => (Ok true, (clk, unlinked key c))
    | None => (Ok false, (clk, c))
    end.
Proof.
  unfold FileCache.delete, bind at 1, self. simpl.
  destruct (FileCache.cache_dir c !! FileCache._get_cache_file key); reflexivity.
Qed.

(** X11  [delete] returns true exactly when the file of the key exists,
    whether its entry is live, expired or unreadable, and reads no clock;
    afterwards [get] returns [None] and a second [delete] returns false. *)
Theorem file_delete_spec (c : FileCache.t) (k : string) (clk : Clock) :
  exists c',
    FileCache.delete k (clk, c)
    = (Ok (bool_decide (is_Some (FileCache.cache_dir c !! FileCache._get_cache_file k))),
       (clk, c'))
    /\ (forall later, FileCache.get k (later, c') = (Ok PNone, (later, c')))
    /\ FileCache.delete k (clk, c') = (Ok false, (clk, c')).
Proof.
  rewrite file_delete_eq.
  destruct (FileCache.cache_dir c !! FileCache._get_cache_file k) as [f|] eqn:Hf.
  - exists (unlinked k c).
    assert (Hgone : FileCache.cache_dir (unlinked k c) !! FileCache._get_cache_file k
                    = None) by (simpl; apply lookup_delete_eq).
    split; [reflexivity|]. split.
    + intros later. now rewrite file_get_eq, Hgone.
    + now rewrite file_delete_eq, Hgone.
  - exists c. split; [reflexivity|]. split.
    + intros later. now rewrite file_get_eq, Hf.
    + now rewrite file_delete_eq, Hf.
Qed.

(** What [get] returns depends on the file of the key and on the
    serialiser alone. *)
Lemma file_get_frame key later c c1 :
  FileCache.cache_dir c1 !! FileCache._get_cache_file key
  = FileCache.cache_dir c !! FileCache._get_cache_file key ->
  FileCache.serializer c1 = FileCache.serializer c ->
  fst (FileCache.get key (later, c1)) = fst (FileCache.get key (later, c)).
Proof.
  intros Hdir Hser. rewrite !file_get_eq, Hdir, Hser.
  destruct (FileCache.cache_dir c !! FileCache._get_cache_file key) as [f|];
    [|reflexivity].
  cbv zeta. destruct (expired_at (file_expiry f) later); [reflexivity|].
  destruct f as [data t e|e|]; try reflexivity.
  now destruct (loads _ _).
Qed.

(** X12  Keys with different digests do not interfere: a [set] or a
    [delete] of one key, returning or raising, leaves the file of the
    other as it was, and a [get] of the other returns what it returned
    before. *)
Theorem file_keys_are_isolated (c : FileCache.t) (k k' : string) (v : pyval)
    (ttl : option Z) (clk : Clock) :
  FileCache._get_cache_file k <> FileCache._get_cache_file k' ->
  FileCache.cache_dir (snd (snd (FileCache.set k v ttl (clk, c))))
    !! FileCache._get_cache_file k'
  = FileCache.cache_dir c !! FileCache._get_cache_file k'
  /\ FileCache.cache_dir (snd (snd (FileCache.delete k (clk, c))))
       !! FileCache._get_cache_file k'
     = FileCache.cache_dir c !! FileCache._get_cache_file k'
  /\ forall later,
       fst (FileCache.get k' (later, snd (snd (FileCache.set k v ttl (clk, c)))))
       = fst (FileCache.get k' (later, c))
       /\ fst (FileCache.get k' (later, snd (snd (FileCache.delete k (clk, c)))))
          = fst (FileCache.get k' (later, c)).
Proof.
  intros Hne.
  assert (Hset : FileCache.cache_dir (snd (snd (FileCache.set k v ttl (clk, c))))
                   !! FileCache._get_cache_file k'
                 = FileCache.cache_dir c !! FileCache._get_cache_file k'
                 /\ FileCache.serializer (snd (snd (FileCache.set k v ttl (clk, c))))
                    = FileCache.serializer c).
  { rewrite file_set_eq. cbv zeta.
    destruct (overflows _); [auto|].
    destruct (dumps (FileCache.serializer c) v); simpl; [|auto].
    destruct (FileCache.faults c !! FileCache._get_cache_file k) as [[]|];
      simpl; auto; now rewrite lookup_insert_ne. }
  assert (Hdel : FileCache.cache_dir (snd (snd (FileCache.delete k (clk, c))))
                   !! FileCache._get_cache_file k'
                 = FileCache.cache_dir c !! FileCache._get_cache_file k'
                 /\ FileCache.serializer (snd (snd (FileCache.delete k (clk, c))))
                    = FileCache.serializer c).
  { rewrite file_delete_eq.
    destruct (FileCache.cache_dir c !! FileCache._get_cache_file k); simpl;
      [|auto].
    now rewrite lookup_delete_ne. }
  destruct Hset as [Hset Hser]. destruct Hdel as [Hdel Hser'].
  split; [exact Hset|]. split; [exact Hdel|].
  intros later. split; now apply file_get_frame.
Qed.

Lemma file_keys_are_isolated_witness :
  let c :=
    {| FileCache.cache_dir :=
         <[FileCache._get_cache_file "a"
             := FileCache.Envelope (FileCache.Pickled (PInt 0)) 0 None]>
           {[FileCache._get_cache_file "b"
               := FileCache.Envelope (FileCache.Pickled (PInt 2)) 0 None]};
       FileCache.faults := ∅; FileCache.default_ttl := None;
       FileCache.serializer := "pickle" |} in
  FileCache.cache_dir (snd (snd (FileCache.set "a" (PInt 1) None (ticking_clock, c))))
    !! FileCache._get_cache_file "b"
  = FileCache.cache_dir c !! FileCache._get_cache_file "b"
  /\ FileCache.cache_dir (snd (snd (FileCache.delete "a" (ticking_clock, c))))
       !! FileCache._get_cache_file "b"
     = FileCache.cache_dir c !! FileCache._get_cache_file "b"
  /\ forall later,
       fst (FileCache.get "b"
              (later, snd (snd (FileCache.set "a" (PInt 1) None (ticking_clock, c)))))
       = fst (FileCache.get "b" (later, c))
       /\ fst (FileCache.get "b"
                 (later, snd (snd (FileCache.delete "a" (ticking_clock, c)))))
          = fst (FileCache.get "b" (later, c)).
Proof.
  intros c. apply file_keys_are_isolated. vm_compute. discriminate.
Defined.

Lemma file_keys_from_none (stems : list string) clk c :
  Forall (fun s => FileCache.cache_dir c !! FileCache._get_cache_file s = None) stems ->
  FileCache.keys_from stems (clk, c) = (Ok [], (clk, c)).
Proof.
  induction stems as [|s stems IH]; intros Hall; simpl; [reflexivity|].
  apply Forall_cons in Hall as [Hs Hall].
  unfold bind at 1, FileCache.exists_, bind at 1.
  rewrite file_get_eq, Hs. simpl. unfold ret at 1, bind at 1.
  now rewrite (IH Hall).
Qed.

(** X13  [keys] looks each file stem up as if it were a key, so in a
    directory where no file is named by the digest of a stem it returns
    the empty list, whatever entries the directory holds, and changes
    nothing. *)
Theorem file_keys_of_set_entries (c : FileCache.t) (clk : Clock) :
  (forall s, is_Some (FileCache.cache_dir c !! s) ->
             FileCache.cache_dir c !! FileCache._get_cache_file s = None) ->
  FileCache.keys (clk, c) = (Ok [], (clk, c)).
Proof.
  intros Hno. unfold FileCache.keys, bind, self. simpl.
  apply file_keys_from_none. apply Forall_forall. intros s Hs.
  apply list_elem_of_fmap in Hs as ([s' f] & -> & Hin).
  apply elem_of_map_to_list in Hin. apply Hno. simpl. eauto.
Qed.

Lemma file_keys_of_set_entries_witness :
  FileCache.keys
    (ticking_clock,
     {| FileCache.cache_dir :=
          {[FileCache._get_cache_file "a"
              := FileCache.Envelope (FileCache.Pickled (PInt 1)) 0 None]};
        FileCache.faults := ∅; FileCache.default_ttl := None;
        FileCache.serializer := "pickle" |})
  = (Ok [],
     (ticking_clock,
      {| FileCache.cache_dir :=
           {[FileCache._get_cache_file "a"
               := FileCache.Envelope (FileCache.Pickled (PInt 1)) 0 None]};
         FileCache.faults := ∅; FileCache.default_ttl := None;
         FileCache.serializer := "pickle" |})).
Proof.
  apply file_keys_of_set_entries. intros s [f Hs].
  cbn [FileCache.cache_dir] in *.
  destruct (decide (s = FileCache._get_cache_file "a")) as [->|Hne].
  - apply lookup_singleton_ne. vm_compute. discriminate.
  - rewrite lookup_singleton_ne in Hs by congruence. discriminate.
Defined.

(** ** The shape of a digest *)

Lemma le_bytes_length n x : List.length (MD5.le_bytes n x) = n.
Proof. revert x. induction n as [|n IH]; intros x; simpl; [reflexivity|]. now rewrite IH. Qed.

Lemma le_bytes_range n x : Forall (fun b => (0 <= b < 256)%Z) (MD5.le_bytes n x).
Proof.
  revert x. induction n as [|n IH]; intros x; simpl; constructor; [|apply IH].
  change 255%Z with (Z.ones 8). rewrite Z.land_ones by lia.
  apply Z.mod_pos_bound. lia.
Qed.

Lemma hex_digit_is_hex x : (0 <= x < 16)%Z -> is_hex_char (MD5.hex_digit x) = true.
Proof.
  intros Hx.
  assert (Hcases : (x = 0 \/ x = 1 \/ x = 2 \/ x = 3 \/ x = 4 \/ x = 5 \/ x = 6
                    \/ x = 7 \/ x = 8 \/ x = 9 \/ x = 10 \/ x = 11 \/ x = 12
                    \/ x = 13 \/ x = 14 \/ x = 15)%Z) by lia.
  repeat (destruct Hcases as [->|Hcases]; [reflexivity|]). now subst x.
Qed.

Lemma hex_shape (bs : list Z) :
  Forall (fun b => (0 <= b < 256)%Z) bs ->
  String.length (MD5.hex bs) = (2 * List.length bs)%nat
  /\ forallb is_hex_char (list_ascii_of_string (MD5.hex bs)) = true.
Proof.
  induction 1 as [|b bs Hb Hbs [IHl IHc]]; [split; reflexivity|].
  cbn [MD5.hex String.length list_ascii_of_string forallb List.length].
  rewrite IHl, IHc. split; [lia|].
  rewrite !hex_digit_is_hex; [reflexivity| |].
  - change 15%Z with (Z.ones 4). rewrite Z.land_ones by lia.
    apply Z.mod_pos_bound. lia.
  - rewrite Z.shiftr_div_pow2 by lia. change (2 ^ 4)%Z with 16%Z.
    split; [apply Z.div_pos; lia|apply Z.div_lt_upper_bound; lia].
Qed.

Lemma hexdigest_shape (s : string) : is_hex32 (MD5.hexdigest s) = true.
Proof.
  unfold is_hex32, MD5.hexdigest, MD5.digest.
  destruct (fold_left MD5.compress _ MD5.init) as [[[a b] c] d].
  destruct (hex_shape (MD5.le_bytes 4 a ++ MD5.le_bytes 4 b
                         ++ MD5.le_bytes 4 c ++ MD5.le_bytes 4 d)%list) as [Hl Hc].
  { repeat (apply Forall_app; split); apply le_bytes_range. }
  rewrite Hl, Hc, !length_app, !le_bytes_length. reflexivity.
Qed.

(** X14  Whatever the key, the file stem of a file cache and the default key
    of a memoised call are 32 lower-case hexadecimal digits. *)
Theorem cache_file_and_cache_key_shape :
  (forall key, is_hex32 (FileCache._get_cache_file key) = true)
  /\ (forall func_module func_name args_str kwargs_str,
        is_hex32 (_generate_cache_key func_module func_name args_str kwargs_str)
        = true).
Proof.
  split; intros; apply hexdigest_shape.
Qed.

(** ** More about the composite *)

Section MultiLevelTotal.
Local Open Scope list_scope.
Context {B : Type} `{CacheBackend.t B}.
Implicit Types (caches : list B) (w : Clock * list B).

Lemma on_cache_length {A} i (m : M B A) w :
  List.length (snd (snd (MultiLevelCache.on_cache i m w))) = List.length (snd w).
Proof.
  unfold MultiLevelCache.on_cache, MultiLevelCache.t.
  destruct (w.2 !! i) as [b|] eqn:Hi; [|reflexivity].
  destruct (m (fst w, b)) as [r [clk b']]. simpl. apply length_insert.
Qed.

Ltac step_cache i m w :=
  let r := fresh "r" in
  let w1 := fresh "w" in
  let E := fresh "E" in
  let L := fresh "L" in
  pose proof (on_cache_length i m w) as L;
  destruct (MultiLevelCache.on_cache i m w) as [r w1] eqn:E; simpl in L.

Ltac fin_len := repeat eexists; unfold MultiLevelCache.t in *; simpl in *; lia.

Lemma write_back_total js k v : forall w,
  exists w', MultiLevelCache.write_back js k v w = (Ok tt, w')
             /\ List.length (snd w') = List.length (snd w).
Proof.
  induction js as [|j js IH]; intros w; simpl; [unfold ret; eauto|].
  unfold bind, try_except.
  step_cache j (CacheBackend.set k v Omitted) w.
  destruct (IH w0) as (w' & Hrest & Hlen).
  destruct r as [[]|e]; unfold ret; rewrite Hrest; fin_len.
Qed.

Lemma get_from_total indices k : forall w,
  exists r w', MultiLevelCache.get_from indices k w = (Ok r, w')
               /\ List.length (snd w') = List.length (snd w).
Proof.
  induction indices as [|i indices IH]; intros w; simpl; [unfold ret; eauto|].
  unfold bind at 1, try_except, bind at 1.
  step_cache i (CacheBackend.get k) w.
  destruct (IH w0) as (r' & w' & Hrest & Hlen).
  destruct r as [v|e]; [|unfold ret; rewrite Hrest; fin_len].
  destruct (is_not_None v); [|unfold ret; rewrite Hrest; fin_len].
  unfold bind.
  destruct (write_back_total (seq 0 i) k v w0) as (w2 & -> & Hlen2).
  unfold ret. fin_len.
Qed.

Lemma set_from_total indices k v ttl : forall w,
  exists w', MultiLevelCache.set_from indices k v ttl w = (Ok tt, w')
             /\ List.length (snd w') = List.length (snd w).
Proof.
  induction indices as [|i indices IH]; intros w; simpl; [unfold ret; eauto|].
  unfold bind, try_except.
  step_cache i (CacheBackend.set k v (Given ttl)) w.
  destruct (IH w0) as (w' & Hrest & Hlen).
  destruct r as [[]|e]; unfold ret; rewrite Hrest; fin_len.
Qed.

Lemma delete_from_total indices k : forall deleted w,
  exists r w', MultiLevelCache.delete_from indices k deleted w = (Ok r, w')
               /\ List.length (snd w') = List.length (snd w).
Proof.
  induction indices as [|i indices IH]; intros d w; simpl; [unfold ret; eauto|].
  unfold bind at 1, try_except, bind at 1.
  step_cache i (CacheBackend.delete k) w.
  destruct r as [b|e]; unfold ret.
  - destruct (IH (if b then true else d) w0) as (r' & w' & -> & Hlen).
    fin_len.
  - destruct (IH d w0) as (r' & w' & -> & Hlen). fin_len.
Qed.

Lemma clear_from_total indices : forall w,
  exists w', MultiLevelCache.clear_from indices w = (Ok tt, w')
             /\ List.length (snd w') = List.length (snd w).
Proof.
  induction indices as [|i indices IH]; intros w; simpl; [unfold ret; eauto|].
  unfold bind, try_except.
  step_cache i (CacheBackend.clear (t := _)) w.
  destruct (IH w0) as (w' & Hrest & Hlen).
  destruct r as [[]|e]; unfold ret; rewrite Hrest; fin_len.
Qed.

Lemma keys_from_total indices : forall all_keys w,
  exists r w', MultiLevelCache.keys_from indices all_keys w = (Ok r, w')
               /\ List.length (snd w') = List.length (snd w).
Proof.
  induction indices as [|i indices IH]; intros acc w; simpl; [unfold ret; eauto|].
  unfold bind at 1, try_except, bind at 1.
  step_cache i (CacheBackend.keys (t := _)) w.
  destruct r as [ks|e]; unfold ret.
  - destruct (IH (acc ∪ list_to_set ks) w0) as (r' & w' & -> & Hlen).
    fin_len.
  - destruct (IH acc w0) as (r' & w' & -> & Hlen). fin_len.
Qed.

(** X15  No operation of a composite raises, whatever its tiers do, and
    none changes the number of tiers. *)
Theorem multi_level_never_raises (caches : list B) (k : string) (v : pyval)
    (ttl : option Z) (clk : Clock) :
  (exists r w, MultiLevelCache.get k (clk, caches) = (Ok r, w)
               /\ List.length (snd w) = List.length caches)
  /\ (exists w, MultiLevelCache.set k v ttl (clk, caches) = (Ok tt, w)
                /\ List.length (snd w) = List.length caches)
  /\ (exists r w, MultiLevelCache.delete k (clk, caches) = (Ok r, w)
                  /\ List.length (snd w) = List.length caches)
  /\ (exists r w, MultiLevelCache.exists_ k (clk, caches) = (Ok r, w)
                  /\ List.length (snd w) = List.length caches)
  /\ (exists w, MultiLevelCache.clear (clk, caches) = (Ok tt, w)
                /\ List.length (snd w) = List.length caches)
  /\ (exists r w, MultiLevelCache.keys (clk, caches) = (Ok r, w)
                  /\ List.length (snd w) = List.length caches).
Proof.
  unfold MultiLevelCache.get, MultiLevelCache.set, MultiLevelCache.delete,
    MultiLevelCache.exists_, MultiLevelCache.clear, MultiLevelCache.keys,
    MultiLevelCache.get, MultiLevelCache.t.
  unfold bind, self. simpl.
  destruct (get_from_total (seq 0 (List.length caches)) k (clk, caches))
    as (r1 & w1 & -> & L1).
  destruct (set_from_total (seq 0 (List.length caches)) k v ttl (clk, caches))
    as (w2 & -> & L2).
  destruct (delete_from_total (seq 0 (List.length caches)) k false (clk, caches))
    as (r3 & w3 & -> & L3).
  destruct (clear_from_total (seq 0 (List.length caches)) (clk, caches))
    as (w5 & -> & L5).
  destruct (keys_from_total (seq 0 (List.length caches)) ∅ (clk, caches))
    as (r6 & w6 & -> & L6).
  unfold ret. simpl in *. repeat split; eauto.
Qed.

Lemma get_first_hit (t0 : B) (rest : list B) k v clk clk' t0' :
  CacheBackend.get k (clk, t0) = (Ok v, (clk', t0')) ->
  is_not_None v = true ->
  MultiLevelCache.get k (clk, t0 :: rest) = (Ok v, (clk', t0' :: rest)).
Proof.
  intros Hget Hv. unfold MultiLevelCache.get, bind at 1, self. simpl.
  unfold bind at 1, try_except, bind at 1, MultiLevelCache.on_cache. simpl.
  rewrite Hget, Hv. reflexivity.
Qed.

(** X16  A hit in the first tier is the composite's answer; no lower tier is
    asked or changed, and nothing is written back. *)
Theorem multi_level_first_tier_hit (t0 : B) (rest : list B) (k : string)
    (v : pyval) (clk clk' : Clock) (t0' : B) :
  CacheBackend.get k (clk, t0) = (Ok v, (clk', t0')) ->
  is_not_None v = true ->
  MultiLevelCache.get k (clk, t0 :: rest) = (Ok v, (clk', t0' :: rest)).
Proof. exact (get_first_hit t0 rest k v clk clk' t0'). Qed.

End MultiLevelTotal.

Lemma multi_level_first_tier_hit_witness :
  MultiLevelCache.get "k"
    (ticking_clock,
     [Memory {| MemoryCache.max_size := 5; MemoryCache.default_ttl := None;
                MemoryCache._cache :=
                  [("k", {| MemoryCache.value := PInt 1; MemoryCache.created_at := 0;
                            MemoryCache.expires_at := None |})];
                MemoryCache._access_times := [("k", 0%Z)] |};
      Failing])
  = (Ok (PInt 1),
     (tick ticking_clock,
      [Memory {| MemoryCache.max_size := 5; MemoryCache.default_ttl := None;
                 MemoryCache._cache :=
                   [("k", {| MemoryCache.value := PInt 1; MemoryCache.created_at := 0;
                             MemoryCache.expires_at := None |})];
                 MemoryCache._access_times := [("k", 0%Z)] |};
       Failing])).
Proof. apply multi_level_first_tier_hit; reflexivity. Defined.

Section MultiLevelEach.
Local Open Scope list_scope.
Context {B : Type} `{CacheBackend.t B}.

(** [set] visits every tier once, in order. *)
Lemma set_from_each (P Q : B -> Prop) k v ttl :
  (forall b clk, P b -> Q (snd (snd (CacheBackend.set k v (Given ttl) (clk, b))))) ->
  forall (post pre : list B) clk,
    Forall P post ->
    exists clk' post',
      MultiLevelCache.set_from (seq (List.length pre) (List.length post)) k v ttl
        (clk, pre ++ post)
      = (Ok tt, (clk', pre ++ post'))
      /\ Forall Q post'.
Proof.
  intros Hstep. induction post as [|b post IH]; intros pre clk Hall; simpl.
  - exists clk, []. split; [reflexivity|constructor].
  - apply Forall_cons in Hall as [Hb Hall].
    unfold bind, try_except. rewrite on_cache_middle.
    pose proof (Hstep b clk Hb) as Hq.
    destruct (CacheBackend.set k v (Given ttl) (clk, b)) as [r [clk1 b1]].
    simpl in Hq.
    destruct (IH (pre ++ [b1]) clk1 Hall) as (clk' & post' & Hrest & Hall').
    rewrite <- seq_after, <- app_assoc in Hrest. simpl in Hrest.
    exists clk', (b1 :: post').
    split; [|now constructor].
    destruct r; unfold ret; rewrite Hrest, <- app_assoc; reflexivity.
Qed.

(** [delete] visits every tier once and reports whether any tier did. *)
Lemma delete_from_each (g : B -> B) k :
  (forall b clk, exists r, CacheBackend.delete k (clk, b) = (r, (clk, g b))) ->
  forall (post pre : list B) clk deleted,
    exists r,
      MultiLevelCache.delete_from (seq (List.length pre) (List.length post)) k deleted
        (clk, pre ++ post)
      = (Ok r, (clk, pre ++ map g post))
      /\ r = deleted
             || existsb (fun b => reported (fst (CacheBackend.delete k (clk, b)))) post.
Proof.
  intros Hstep. induction post as [|b post IH]; intros pre clk d; simpl.
  - exists d. split; [reflexivity|now rewrite orb_false_r].
  - unfold bind at 1, try_except, bind at 1. rewrite on_cache_middle.
    destruct (Hstep b clk) as (r & Hr). rewrite Hr. simpl.
    destruct r as [flag|e]; unfold ret.
    + destruct (IH (pre ++ [g b]) clk (if flag then true else d)) as (r' & Hrest & ->).
      rewrite <- seq_after, <- app_assoc in Hrest. simpl in Hrest.
      rewrite Hrest, <- app_assoc. eexists. split; [reflexivity|].
      destruct flag, d; reflexivity.
    + destruct (IH (pre ++ [g b]) clk d) as (r' & Hrest & ->).
      rewrite <- seq_after, <- app_assoc in Hrest. simpl in Hrest.
      rewrite Hrest, <- app_assoc. eauto.
Qed.

Lemma clear_from_each (g : B -> B) :
  (forall b clk, exists r, CacheBackend.clear (clk, b) = (r, (clk, g b))) ->
  forall (post pre : list B) clk,
    MultiLevelCache.clear_from (seq (List.length pre) (List.length post))
      (clk, pre ++ post)
    = (Ok tt, (clk, pre ++ map g post)).
Proof.
  intros Hstep. induction post as [|b post IH]; intros pre clk; simpl; [reflexivity|].
  unfold bind, try_except. rewrite on_cache_middle.
  destruct (Hstep b clk) as (r & ->).
  specialize (IH (pre ++ [g b]) clk).
  rewrite <- seq_after, <- app_assoc in IH. simpl in IH.
  destruct r as [[]|e]; unfold ret; rewrite IH, <- app_assoc; reflexivity.
Qed.

(** Tiers that list no key add nothing to [keys]. *)
Lemma keys_from_empty (post : list B) : forall (pre : list B) clk all_keys,
  Forall (fun b => forall clk, lists_nothing (fst (CacheBackend.keys (clk, b)))) post ->
  exists w,
    MultiLevelCache.keys_from (seq (List.length pre) (List.length post)) all_keys
      (clk, pre ++ post)
    = (Ok all_keys, w).
Proof.
  induction post as [|b post IH]; intros pre clk acc Hall; simpl.
  - unfold ret. eauto.
  - apply Forall_cons in Hall as [Hb Hall].
    unfold bind at 1, try_except, bind at 1. rewrite on_cache_middle.
    specialize (Hb clk).
    destruct (CacheBackend.keys (clk, b)) as [r [clk1 b1]]. simpl in Hb.
    destruct (IH (pre ++ [b1]) clk1 acc Hall) as (w & Hrest).
    rewrite <- seq_after, <- app_assoc in Hrest. simpl in Hrest.
    destruct r as [ks|e]; simpl in Hb; [subst ks|]; unfold ret.
    + simpl. rewrite union_empty_r_L. rewrite Hrest. eauto.
    + rewrite Hrest. eauto.
Qed.

End MultiLevelEach.

Lemma tier_delete_eq (t : tier) k clk :
  exists r, CacheBackend.delete k (clk, t) = (r, (clk, deleted k t))
            /\ reported r = holds k t.
Proof.
  destruct t as [c|c|]; unfold CacheBackend.delete; simpl; unfold dispatch; simpl.
  - rewrite delete_eq.
    destruct (Dict.contains k (MemoryCache._cache c)); eauto.
  - rewrite file_delete_eq.
    destruct (FileCache.cache_dir c !! FileCache._get_cache_file k) eqn:Hf; simpl.
    + eexists. split; reflexivity.
    + eexists. split; reflexivity.
  - eauto.
Qed.

Lemma tier_clear_eq (t : tier) clk :
  exists r, CacheBackend.clear (clk, t) = (r, (clk, cleared t)).
Proof. destruct t as [c|c|]; eexists; reflexivity. Qed.

Lemma absent_deleted (t : tier) k : tier_wf t -> absent_at k (deleted k t).
Proof.
  destruct t as [c|c|]; simpl; intros Hwf later.
  - rewrite tier_memory_get, memory_get_eq.
    destruct (Dict.contains k (MemoryCache._cache c)) eqn:Hc.
    + destruct (popped_spec c k Hwf) as (-> & _). reflexivity.
    + unfold Dict.contains in Hc.
      destruct (Dict.getitem k (MemoryCache._cache c)); [discriminate|reflexivity].
  - rewrite tier_file_get, file_get_eq.
    destruct (FileCache.cache_dir c !! FileCache._get_cache_file k) eqn:Hf.
    + simpl. rewrite lookup_delete_eq. reflexivity.
    + rewrite Hf. reflexivity.
  - rewrite failing_get. exact I.
Qed.

Lemma absent_cleared (t : tier) k : absent_at k (cleared t).
Proof.
  destruct t as [c|c|]; simpl; intros later.
  - rewrite tier_memory_get, memory_get_eq. reflexivity.
  - rewrite tier_file_get, file_get_eq. simpl. rewrite lookup_empty. reflexivity.
  - rewrite failing_get. exact I.
Qed.

Lemma cleared_lists_nothing (t : tier) clk :
  lists_nothing (fst (CacheBackend.keys (clk, cleared t))).
Proof.
  destruct t as [c|c|]; unfold CacheBackend.keys; simpl; unfold dispatch; simpl.
  - reflexivity.
  - unfold CacheBackend.keys. simpl.
    unfold FileCache.keys, bind, self. simpl. rewrite map_to_list_empty. reflexivity.
  - exact I.
Qed.

Lemma multi_get_none (caches : list tier) k later :
  Forall (absent_at k) caches ->
  fst (MultiLevelCache.get k (later, caches)) = Ok PNone.
Proof.
  intros Hall.
  destruct (get_from_none caches [] later k Hall) as (clk' & caches' & Hget).
  simpl in Hget. unfold MultiLevelCache.get, bind, self, MultiLevelCache.t in *.
  simpl. now rewrite Hget.
Qed.

(** X17  [delete] on a composite reads no clock and returns true exactly when
    some tier held an entry for the key, live or expired; afterwards the
    composite's [get] of the key returns [None]. *)
Theorem multi_level_delete_spec (caches : list tier) (k : string) (clk : Clock) :
  Forall tier_wf caches ->
  MultiLevelCache.delete k (clk, caches)
  = (Ok (existsb (holds k) caches), (clk, map (deleted k) caches))
  /\ forall later,
       fst (MultiLevelCache.get k (later, map (deleted k) caches)) = Ok PNone.
Proof.
  intros Hwf. split.
  - destruct (delete_from_each (deleted k) k) with (post := caches) (pre := @nil tier)
        (clk := clk) (deleted := false) as (r & Hdel & ->).
    { intros b clk0. destruct (tier_delete_eq b k clk0) as (r & Hr & _). eauto. }
    simpl in Hdel. unfold MultiLevelCache.delete, bind, self, MultiLevelCache.t in *.
    simpl. rewrite Hdel. do 2 f_equal.
    clear Hdel Hwf. induction caches as [|t caches IH]; simpl; [reflexivity|].
    rewrite IH. f_equal.
    destruct (tier_delete_eq t k clk) as (r & -> & Hr). exact Hr.
  - intros later. apply multi_get_none. apply Forall_fmap.
    eapply Forall_impl; [exact Hwf|]. intros t Ht. now apply absent_deleted.
Qed.

Lemma multi_level_delete_spec_witness :
  let caches :=
    [Failing;
     Memory
       {| MemoryCache.max_size := 2; MemoryCache.default_ttl := None;
          MemoryCache._cache :=
            [("j", {| MemoryCache.value := PInt 1; MemoryCache.created_at := 0;
                      MemoryCache.expires_at := None |});
             ("k", {| MemoryCache.value := PInt 2; MemoryCache.created_at := 2;
                      MemoryCache.expires_at := None |})];
          MemoryCache._access_times := [("j", 1%Z); ("k", 3%Z)] |};
     File
       {| FileCache.cache_dir :=
            {[FileCache._get_cache_file "k"
                := FileCache.Envelope (FileCache.JsonText (PInt 2)) 4 None]};
          FileCache.faults := ∅; FileCache.default_ttl := None;
          FileCache.serializer := "json" |}] in
  MultiLevelCache.delete "k" (ticking_clock, caches)
  = (Ok (existsb (holds "k") caches), (ticking_clock, map (deleted "k") caches))
  /\ forall later,
       fst (MultiLevelCache.get "k" (later, map (deleted "k") caches)) = Ok PNone.
Proof.
  intros caches. apply multi_level_delete_spec.
  constructor; [exact I|].
  constructor; [split; [compute_done|reflexivity]|].
  constructor; [exact I|constructor].
Defined.

(** X18  [clear] on a composite reads no clock and clears every tier that
    does not raise; afterwards the composite's [get] of any key returns
    [None] and its [keys] is empty. *)
Theorem multi_level_clear_spec (caches : list tier) (clk : Clock) :
  MultiLevelCache.clear (clk, caches) = (Ok tt, (clk, map cleared caches))
  /\ forall k later,
       fst (MultiLevelCache.get k (later, map cleared caches)) = Ok PNone
       /\ fst (MultiLevelCache.keys (later, map cleared caches)) = Ok [].
Proof.
  split.
  - pose proof (clear_from_each cleared tier_clear_eq caches [] clk) as Hclear.
    simpl in Hclear. unfold MultiLevelCache.clear, bind, self, MultiLevelCache.t in *.
    simpl. exact Hclear.
  - intros k later. split.
    + apply multi_get_none. apply Forall_fmap, Forall_forall.
      intros t _. apply absent_cleared.
    + destruct (keys_from_empty (map cleared caches) [] later ∅) as (w & Hkeys).
      { apply Forall_fmap, Forall_forall. intros t _ clk0. apply cleared_lists_nothing. }
      simpl in Hkeys. unfold MultiLevelCache.keys, bind, self, MultiLevelCache.t in *.
      simpl. rewrite Hkeys. simpl. now rewrite elements_empty.
Qed.

Lemma tier_set_explicit_none (t : tier) k v clk :
  keeps_explicit_none k v t ->
  always_gets k v (snd (snd (CacheBackend.set k v (Given None) (clk, t)))).
Proof.
  destruct t as [c|c|]; simpl;
    [intros _|intros (Hd & (data & Hdumps) & Hfault)|intros []];
    intros later.
  - rewrite tier_memory_set.
    destruct (memory_set_stores k v (Given None) clk c) as (c' & -> & Hget & _);
      [reflexivity|].
    simpl. rewrite tier_memory_get, memory_get_eq, Hget. reflexivity.
  - rewrite tier_file_set, file_set_eq, Hd, Hdumps, Hfault. simpl.
    rewrite tier_file_get, (file_get_written k v data _ _ later c Hdumps).
    reflexivity.
Qed.

(** X19  [set] on a composite with no ttl writes every tier: over memory
    tiers, whatever their default ttl, and file tiers without default ttl
    whose serialiser accepts the value and whose file for the key can be
    written, every tier then returns the value at any later time, and so
    does the composite. *)
Theorem multi_level_set_reaches_every_tier (caches : list tier) (k : string)
    (v : pyval) (clk : Clock) :
  is_not_None v = true ->
  Forall (keeps_explicit_none k v) caches ->
  exists clk' caches',
    MultiLevelCache.set k v None (clk, caches) = (Ok tt, (clk', caches'))
    /\ List.length caches' = List.length caches
    /\ Forall (always_gets k v) caches'
    /\ (caches <> [] ->
        forall later, fst (MultiLevelCache.get k (later, caches')) = Ok v).
Proof.
  intros Hv Hall.
  destruct (set_from_each (keeps_explicit_none k v) (always_gets k v) k v None
              (fun b clk0 => tier_set_explicit_none b k v clk0) caches [] clk Hall)
    as (clk' & caches' & Hset & Hall').
  simpl in Hset.
  destruct (set_from_total (seq 0 (List.length caches)) k v None (clk, caches))
    as (w & Hset' & Hlen).
  assert (Hlen' : List.length caches' = List.length caches).
  { unfold MultiLevelCache.t in *. rewrite Hset in Hset'.
    injection Hset' as <-. exact Hlen. }
  exists clk', caches'.
  split; [unfold MultiLevelCache.set, bind, self, MultiLevelCache.t in *; exact Hset|].
  split; [exact Hlen'|]. split; [exact Hall'|].
  intros Hne later. destruct caches' as [|t0 rest].
  - destruct caches; [contradiction|discriminate].
  - apply Forall_cons in Hall' as [H0 _]. specialize (H0 later).
    destruct (CacheBackend.get k (later, t0)) as [r [clk0 t0']] eqn:Hget.
    simpl in H0. subst r.
    pose proof (get_first_hit t0 rest k v later clk0 t0' Hget Hv) as Hhit.
    unfold MultiLevelCache.t in *. now rewrite Hhit.
Qed.

Lemma multi_level_set_reaches_every_tier_witness :
  exists clk' caches',
    MultiLevelCache.set "k" (PInt 1) None
      (ticking_clock,
       [Memory (fresh_memory 2 (Some 1%Z)); File (fresh_file None "json")])
    = (Ok tt, (clk', caches'))
    /\ List.length caches' = 2
    /\ Forall (always_gets "k" (PInt 1)) caches'
    /\ ([Memory (fresh_memory 2 (Some 1%Z)); File (fresh_file None "json")] <> [] ->
        forall later, fst (MultiLevelCache.get "k" (later, caches')) = Ok (PInt 1)).
Proof.
  apply (multi_level_set_reaches_every_tier
           [Memory (fresh_memory 2 (Some 1%Z)); File (fresh_file None "json")]);
    [reflexivity|].
  repeat constructor. simpl. eauto.
Defined.



(** ** More about the manager *)

Section ManagerMore.
Context {B : Type} `{CacheBackend.t B}.
Implicit Types (mg : CacheManager.t B) (backend : option string).

Lemma manager_delete_eq key backend clk mg :
  CacheManager.delete key backend (clk, mg)
  = match selected mg backend with
    | None => (Raise CacheError, (clk, mg))
    | Some b =>
        match CacheBackend.delete key (clk, b) with
        | (Ok true, (clk', b')) =>
            (Ok true,
             (clk', counted CacheManager.count_delete (put_selected backend b' mg)))
        | (Ok false, (clk', b')) => (Ok false, (clk', put_selected backend b' mg))
        | (Raise _, (clk', b')) => (Raise CacheError, (clk', put_selected backend b' mg))
        end
    end.
Proof.
  unfold CacheManager.delete, CacheManager.get_backend, CacheManager.call, zoom.
  destruct backend as [name|]; run.
  - destruct (CacheManager.backends mg !! name) as [b|] eqn:Hb; simpl;
      rewrite ?Hb; [|reflexivity].
    destruct (CacheBackend.delete key (clk, b)) as [[[]|e] [clk' b']]; reflexivity.
  - destruct (CacheBackend.delete key (clk, _)) as [[[]|e] [clk' b']]; reflexivity.
Qed.

Lemma manager_clear_eq backend clk mg :
  CacheManager.clear backend (clk, mg)
  = match selected mg backend with
    | None => (Raise CacheError, (clk, mg))
    | Some b =>
        match CacheBackend.clear (clk, b) with
        | (Ok _, (clk', b')) => (Ok tt, (clk', put_selected backend b' mg))
        | (Raise _, (clk', b')) => (Raise CacheError, (clk', put_selected backend b' mg))
        end
    end.
Proof.
  unfold CacheManager.clear, CacheManager.get_backend, CacheManager.call, zoom.
  destruct backend as [name|]; run.
  - destruct (CacheManager.backends mg !! name) as [b|] eqn:Hb; simpl;
      rewrite ?Hb; [|reflexivity].
    destruct (CacheBackend.clear (clk, b)) as [[[]|e] [clk' b']]; reflexivity.
  - destruct (CacheBackend.clear (clk, _)) as [[[]|e] [clk' b']]; reflexivity.
Qed.

Lemma stats_put backend (b : B) mg :
  CacheManager._stats (put_selected backend b mg) = CacheManager._stats mg.
Proof. destruct backend; reflexivity. Qed.

(** X21  The counters: every [get], returning or raising, adds one to
    exactly one of [hits] and [misses], to [hits] when it returns a value
    that is not [None]; a [set] adds one to [sets] when it returns; a
    [delete] adds one to [deletes] when it returns true; nothing else
    changes a counter. *)
Theorem manager_counters (mg : CacheManager.t B) (key : string) (v : pyval)
    (ttl : option Z) (backend : option string) (clk : Clock) :
  let s := CacheManager._stats mg in
  let after {A} (x : result A * (Clock * CacheManager.t B)) :=
    CacheManager._stats (snd (snd x)) in
  after (CacheManager.get key backend (clk, mg))
  = (match fst (CacheManager.get key backend (clk, mg)) with
     | Ok x => if is_not_None x then CacheManager.count_hit s
               else CacheManager.count_miss s
     | Raise _ => CacheManager.count_miss s
     end)
  /\ after (CacheManager.set key v ttl backend (clk, mg))
     = (match fst (CacheManager.set key v ttl backend (clk, mg)) with
        | Ok _ => CacheManager.count_set s
        | Raise _ => s
        end)
  /\ after (CacheManager.delete key backend (clk, mg))
     = (match fst (CacheManager.delete key backend (clk, mg)) with
        | Ok true => CacheManager.count_delete s
        | _ => s
        end)
  /\ after (CacheManager.clear backend (clk, mg)) = s.
Proof.
  simpl. rewrite manager_get_eq, manager_set_eq, manager_delete_eq, manager_clear_eq.
  destruct (selected mg backend) as [b|]; [|auto].
  destruct (CacheBackend.get key (clk, b)) as [[x|e1] [clk1 b1]];
    destruct (CacheBackend.set key v (Given ttl) (clk, b)) as [[[]|e2] [clk2 b2]];
    destruct (CacheBackend.delete key (clk, b)) as [[[]|e3] [clk3 b3]];
    destruct (CacheBackend.clear (clk, b)) as [[[]|e4] [clk4 b4]];
    simpl; rewrite ?stats_put; try destruct (is_not_None x); auto.
Qed.

(** X22  A backend name that is not registered makes [get], [set],
    [delete] and [clear] raise [CacheError], not [CacheKeyError]; the
    manager is unchanged but for the miss that [get] counts. *)
Theorem manager_unknown_backend (mg : CacheManager.t B) (name key : string)
    (v : pyval) (ttl : option Z) (clk : Clock) :
  CacheManager.backends mg !! name = None ->
  CacheManager.get key (Some name) (clk, mg)
  = (Raise CacheError, (clk, counted CacheManager.count_miss mg))
  /\ CacheManager.set key v ttl (Some name) (clk, mg) = (Raise CacheError, (clk, mg))
  /\ CacheManager.delete key (Some name) (clk, mg) = (Raise CacheError, (clk, mg))
  /\ CacheManager.clear (Some name) (clk, mg) = (Raise CacheError, (clk, mg)).
Proof.
  intros Hnone.
  rewrite manager_get_eq, manager_set_eq, manager_delete_eq, manager_clear_eq.
  simpl. rewrite Hnone. auto.
Qed.

Lemma selected_put_ne mg backend backend' (b : B) f :
  backend' <> backend ->
  selected (counted f (put_selected backend b mg)) backend' = selected mg backend'
  /\ selected (put_selected backend b mg) backend' = selected mg backend'.
Proof.
  intros Hne. destruct backend as [n|], backend' as [n'|]; simpl; auto;
    try contradiction.
  rewrite lookup_insert_ne by congruence. auto.
Qed.

(** X23  Backends are isolated: an operation addressed to one backend, by
    name or by default, leaves every other backend of the manager as it
    was. *)
Theorem manager_backends_are_isolated (mg : CacheManager.t B) (key : string)
    (v : pyval) (ttl : option Z) (backend other : option string) (clk : Clock) :
  other <> backend ->
  selected (snd (snd (CacheManager.get key backend (clk, mg)))) other
  = selected mg other
  /\ selected (snd (snd (CacheManager.set key v ttl backend (clk, mg)))) other
     = selected mg other
  /\ selected (snd (snd (CacheManager.delete key backend (clk, mg)))) other
     = selected mg other
  /\ selected (snd (snd (CacheManager.clear backend (clk, mg)))) other
     = selected mg other.
Proof.
  intros Hne.
  rewrite manager_get_eq, manager_set_eq, manager_delete_eq, manager_clear_eq.
  destruct (selected mg backend) as [b|];
    [|simpl; repeat split; auto; now destruct other].
  destruct (CacheBackend.get key (clk, b)) as [[x|e1] [clk1 b1]];
    destruct (CacheBackend.set key v (Given ttl) (clk, b)) as [[[]|e2] [clk2 b2]];
    destruct (CacheBackend.delete key (clk, b)) as [[[]|e3] [clk3 b3]];
    destruct (CacheBackend.clear (clk, b)) as [[[]|e4] [clk4 b4]];
    simpl; repeat split;
    first [apply (proj1 (selected_put_ne _ _ _ _ _ Hne))
          |apply (proj2 (selected_put_ne _ _ _ _ id Hne))].
Qed.

End ManagerMore.

Lemma manager_unknown_backend_witness :
  let mg := CacheManager.__init__ (Memory (fresh_memory 10 None)) in
  CacheManager.get "k" (Some "disk") (ticking_clock, mg)
  = (Raise CacheError, (ticking_clock, counted CacheManager.count_miss mg))
  /\ CacheManager.set "k" (PInt 1) None (Some "disk") (ticking_clock, mg)
     = (Raise CacheError, (ticking_clock, mg))
  /\ CacheManager.delete "k" (Some "disk") (ticking_clock, mg)
     = (Raise CacheError, (ticking_clock, mg))
  /\ CacheManager.clear (Some "disk") (ticking_clock, mg)
     = (Raise CacheError, (ticking_clock, mg)).
Proof.
  intros mg. apply manager_unknown_backend. reflexivity.
Defined.

Lemma manager_backends_are_isolated_witness :
  let mg :=
    snd (snd (CacheManager.register_backend "disk" (File (fresh_file None "json"))
                (ticking_clock,
                 CacheManager.__init__ (Memory (fresh_memory 10 None))))) in
  selected (snd (snd (CacheManager.get "k" (Some "disk") (ticking_clock, mg)))) None
  = selected mg None
  /\ selected (snd (snd (CacheManager.set "k" (PInt 1) None (Some "disk")
                           (ticking_clock, mg)))) None
     = selected mg None
  /\ selected (snd (snd (CacheManager.delete "k" (Some "disk") (ticking_clock, mg)))) None
     = selected mg None
  /\ selected (snd (snd (CacheManager.clear (Some "disk") (ticking_clock, mg)))) None
     = selected mg None.
Proof.
  intros mg. apply manager_backends_are_isolated. discriminate.
Defined.

(** ** A manager over a memory cache *)

Section ManagerOnMemory.
Implicit Types (mg : CacheManager.t tier) (backend : option string).

Lemma manager_memory_set key v ttl backend clk mg c :
  selected mg backend = Some (Memory c) ->
  overflows ttl = false ->
  exists clk' c',
    CacheManager.set key v ttl backend (clk, mg)
    = (Ok tt, (clk', counted CacheManager.count_set
                       (put_selected backend (Memory c') mg)))
    /\ Dict.getitem key (MemoryCache._cache c')
       = Some {| MemoryCache.value := v;
                 MemoryCache.created_at := now (after_expiry clk ttl);
                 MemoryCache.expires_at := expiry clk ttl |}.
Proof.
  intros Hsel Hfits. rewrite manager_set_eq, Hsel, tier_memory_set.
  destruct (memory_set_stores key v (Given ttl) clk c Hfits)
    as (c' & -> & Hget & _).
  simpl in Hget. eauto.
Qed.

Lemma manager_memory_get key backend later mg c item :
  selected mg backend = Some (Memory c) ->
  Dict.getitem key (MemoryCache._cache c) = Some item ->
  CacheManager.get key backend (later, mg)
  = if expired_at (MemoryCache.expires_at item) later
    then (Ok PNone,
          (after_expiry later (MemoryCache.expires_at item),
           counted CacheManager.count_miss
             (put_selected backend (Memory (popped key c)) mg)))
    else (Ok (MemoryCache.value item),
          (tick (after_expiry later (MemoryCache.expires_at item)),
           counted (if is_not_None (MemoryCache.value item)
                    then CacheManager.count_hit else CacheManager.count_miss)
             (put_selected backend
                (Memory (MemoryCache.with_access_times
                           (Dict.setitem key
                              (now (after_expiry later (MemoryCache.expires_at item))))
                           c)) mg))).
Proof.
  intros Hsel Hget.
  rewrite manager_get_eq, Hsel, tier_memory_get, memory_get_eq, Hget.
  unfold expired_at. simpl.
  destruct (MemoryCache.expires_at item) as [e|]; [|reflexivity].
  destruct (e <? now later)%Z; reflexivity.
Qed.

Lemma manager_memory_get_state key backend clk mg c :
  selected mg backend = Some (Memory c) ->
  exists r clk1 c1 f,
    CacheManager.get key backend (clk, mg)
    = (r, (clk1, counted f (put_selected backend (Memory c1) mg))).
Proof.
  intros Hsel. rewrite manager_get_eq, Hsel, tier_memory_get.
  destruct (MemoryCache.get key (clk, c)) as [[v|e] [clk1 c1]]; repeat eexists.
Qed.

(** Through the manager a memory backend answers as it does alone. *)
Lemma manager_memory_get_fst key backend later mg c :
  selected mg backend = Some (Memory c) ->
  fst (CacheManager.get key backend (later, mg))
  = fst (MemoryCache.get key (later, c)).
Proof.
  intros Hsel. rewrite manager_get_eq, Hsel, tier_memory_get.
  pose proof (memory_get_fst key later c) as Hg.
  destruct (MemoryCache.get key (later, c)) as [[v|e] [clk1 c1]];
    [reflexivity|discriminate].
Qed.


Section WrapperOnMemory.
Context {U Args : Type}.
Variable ttl : option Z.
Variable key_func : option (Args -> string).
Variable backend : option string.
Variable default_key : Args -> string.

Local Abbreviation key_of := (cache_key_of key_func default_key).

Lemma wrapper_first_call (func : Args -> M U pyval) args clk mg u c r clk1 mg1
    v clk2 u2 :
  overflows ttl = false ->
  selected mg backend = Some (Memory c) ->
  CacheManager.get (key_of args) backend (clk, mg) = (r, (clk1, mg1)) ->
  no_value r ->
  func args (clk1, u) = (Ok v, (clk2, u2)) ->
  exists clk3 mg3 c3,
    wrapper ttl key_func backend func default_key args (clk, (mg, u))
    = (Ok v, (clk3, (mg3, u2)))
    /\ selected mg3 backend = Some (Memory c3)
    /\ Dict.getitem (key_of args) (MemoryCache._cache c3)
       = Some {| MemoryCache.value := v;
                 MemoryCache.created_at := now (after_expiry clk2 ttl);
                 MemoryCache.expires_at := expiry clk2 ttl |}.
Proof.
  intros Hfits Hsel Hget Hno Hfunc.
  destruct (manager_memory_get_state (key_of args) backend clk mg c Hsel)
    as (r' & clk1' & c1 & f & Hstate).
  rewrite Hget in Hstate. injection Hstate as <- <- ->.
  destruct (manager_memory_set (key_of args) v ttl backend clk2 _ c1
              (proj1 (selected_put mg backend (Memory c1) f)) Hfits)
    as (clk3 & c3 & Hset & Hitem).
  exists clk3, (counted CacheManager.count_set
                  (put_selected backend (Memory c3)
                     (counted f (put_selected backend (Memory c1) mg)))), c3.
  split; [|split; [apply (selected_put _ _ _ CacheManager.count_set)|exact Hitem]].
  rewrite wrapper_eq, Hget. unfold run_and_store. rewrite Hfunc, Hset.
  destruct r as [w|e]; [|reflexivity].
  simpl in Hno. now subst w.
Qed.

Lemma wrapper_later_call (func : Args -> M U pyval) args later mg u c item :
  selected mg backend = Some (Memory c) ->
  Dict.getitem (key_of args) (MemoryCache._cache c) = Some item ->
  is_not_None (MemoryCache.value item) = true ->
  wrapper ttl key_func backend func default_key args (later, (mg, u))
  = if expired_at (MemoryCache.expires_at item) later
    then run_and_store ttl key_func backend func default_key args
           (after_expiry later (MemoryCache.expires_at item))
           (counted CacheManager.count_miss
              (put_selected backend (Memory (popped (key_of args) c)) mg)) u
    else (Ok (MemoryCache.value item),
          (tick (after_expiry later (MemoryCache.expires_at item)),
           (counted CacheManager.count_hit
              (put_selected backend
                 (Memory (MemoryCache.with_access_times
                            (Dict.setitem (key_of args)
                               (now (after_expiry later (MemoryCache.expires_at item))))
                            c)) mg), u))).
Proof.
  intros Hsel Hitem Hv.
  rewrite wrapper_eq,
    (manager_memory_get (key_of args) backend later mg c item Hsel Hitem), Hv.
  destruct (expired_at _ later); [reflexivity|]. now rewrite Hv.
Qed.


End WrapperOnMemory.
End ManagerOnMemory.

Section WrapperRaises.
Context {B : Type} `{CacheBackend.t B} {U Args : Type}.

(** X26  An exception of the function is not caught: when the lookup gives
    no value and the function raises, the wrapper raises the same
    exception, and the manager is as the lookup left it: nothing is
    stored and no [set] is counted. *)
Theorem cached_call_propagates_exception (ttl : option Z)
    (key_func : option (Args -> string)) (backend : option string)
    (func : Args -> M U pyval) (default_key : Args -> string) (args : Args)
    (clk : Clock) (mg : CacheManager.t B) (u : U) (r : result pyval)
    (clk1 : Clock) (mg1 : CacheManager.t B) (e : exn) (clk2 : Clock) (u2 : U) :
  CacheManager.get (cache_key_of key_func default_key args) backend (clk, mg)
  = (r, (clk1, mg1)) ->
  no_value r ->
  func args (clk1, u) = (Raise e, (clk2, u2)) ->
  wrapper ttl key_func backend func default_key args (clk, (mg, u))
  = (Raise e, (clk2, (mg1, u2))).
Proof.
  intros Hget Hno Hfunc. rewrite wrapper_eq, Hget. unfold run_and_store.
  rewrite Hfunc. destruct r as [w|e']; [|reflexivity].
  simpl in Hno. now subst w.
Qed.

End WrapperRaises.



Lemma cached_call_propagates_exception_witness :
  let mg := CacheManager.__init__ (Memory (fresh_memory 10 None)) in
  wrapper (B := tier) (U := nat) None None None
    (fun _ : unit => modify S ;; raise OtherException) (fun _ => "key") tt
    (ticking_clock, (mg, 0))
  = (Raise OtherException,
     (ticking_clock, (counted CacheManager.count_miss mg, 1))).
Proof.
  intros mg.
  apply (cached_call_propagates_exception None None None _ _ tt ticking_clock mg 0
           (Ok PNone) ticking_clock (counted CacheManager.count_miss mg)
           OtherException ticking_clock 1);
    reflexivity.
Defined.

(** ** [timed_cache] and [lru_cache] *)

Section TimedCache.
Context {U Args : Type}.
Variable default_key : Args -> string.


End TimedCache.


Section LruCache.
Context {U Args : Type}.
Variable default_key : Args -> string.

Lemma lru_wrapper_eq (func : Args -> M U pyval) args clk c u :
  lru_cache.wrapper func default_key args (clk, (c, u))
  = match MemoryCache.get (default_key args) (clk, c) with
    | (Ok v, (clk1, c1)) =>
        if is_not_None v then (Ok v, (clk1, (c1, u)))
        else
          match func args (clk1, u) with
          | (Ok res, (clk2, u2)) =>
              match MemoryCache.set (default_key args) res Omitted (clk2, c1) with
              | (Ok _, (clk3, c3)) => (Ok res, (clk3, (c3, u2)))
              | (Raise e, (clk3, c3)) => (Raise e, (clk3, (c3, u2)))
              end
          | (Raise e, (clk2, u2)) => (Raise e, (clk2, (c1, u2)))
          end
    | (Raise e, (clk1, c1)) => (Raise e, (clk1, (c1, u)))
    end.
Proof.
  unfold lru_cache.wrapper, lru_cache.on_cache, lru_cache.on_func_state, zoom.
  run.
  destruct (MemoryCache.get _ (clk, c)) as [[v|e] [clk1 c1]]; [|reflexivity].
  destruct v; simpl; try reflexivity.
  destruct (func args (clk1, u)) as [[res|e] [clk2 u2]]; simpl; [|reflexivity].
  destruct (MemoryCache.set _ res Omitted (clk2, c1)) as [[[]|e] [clk3 c3]];
    reflexivity.
Qed.

(** X28  [lru_cache]: the cache it builds has no default ttl, so a result
    other than [None] that a call has stored is returned by every later
    call with the same key, at any time, without running the function, as
    long as the entry has not been evicted. *)
Theorem lru_cache_serves_repeated_calls (func : Args -> M U pyval) (args : Args)
    (clk : Clock) (c : MemoryCache.t) (u : U) (clk1 : Clock) (c1 : MemoryCache.t)
    (v : pyval) (clk2 : Clock) (u2 : U) :
  MemoryCache.default_ttl c = None ->
  MemoryCache.get (default_key args) (clk, c) = (Ok PNone, (clk1, c1)) ->
  func args (clk1, u) = (Ok v, (clk2, u2)) ->
  is_not_None v = true ->
  exists clk3 c3,
    lru_cache.wrapper func default_key args (clk, (c, u))
    = (Ok v, (clk3, (c3, u2)))
    /\ forall (func' : Args -> M U pyval) args' later u',
         default_key args' = default_key args ->
         exists clk4 c4,
           lru_cache.wrapper func' default_key args' (later, (c3, u'))
           = (Ok v, (clk4, (c4, u'))).
Proof.
  intros Hd Hget Hfunc Hv.
  pose proof (memory_get_default_ttl (default_key args) clk c) as Hd1.
  rewrite Hget, Hd in Hd1. simpl in Hd1.
  destruct (memory_set_stores (default_key args) v Omitted clk2 c1)
    as (c3 & Hset & Hitem & _); [simpl; now rewrite Hd1|].
  rewrite Hd1 in Hset, Hitem. simpl in Hset, Hitem.
  do 2 eexists. split.
  - rewrite lru_wrapper_eq, Hget. simpl. rewrite Hfunc, Hset. reflexivity.
  - intros func' args' later u' Hkey.
    rewrite lru_wrapper_eq, Hkey, memory_get_eq, Hitem. simpl. rewrite Hv. eauto.
Qed.

(** X29  The cache of [lru_cache(maxsize)] stays within its bound: it
    starts empty and without a default ttl, and after any call, whether
    the function returned or raised, it has no default ttl, its two dicts
    have the same unique keys and at most [max(1, maxsize)] entries; the
    wrapper raises only what the function raised. *)
Theorem lru_cache_is_bounded (maxsize : Z) (func : Args -> M U pyval) :
  (exists c0,
     lru_cache.cache maxsize = Ok c0
     /\ memory_ok maxsize c0 /\ MemoryCache.default_ttl c0 = None)
  /\ forall c u args clk,
       memory_ok maxsize c ->
       MemoryCache.default_ttl c = None ->
       let call := lru_cache.wrapper func default_key args (clk, (c, u)) in
       memory_ok maxsize (fst (snd (snd call)))
       /\ MemoryCache.default_ttl (fst (snd (snd call))) = None
       /\ forall e, fst call = Raise e ->
            exists clk1, fst (func args (clk1, u)) = Raise e.
Proof.
  split.
  - eexists. split; [reflexivity|]. split; [|reflexivity].
    repeat split; simpl; auto; [constructor|unfold Dict.len; simpl; lia].
  - intros c u args clk Hc Hd. cbv zeta. rewrite lru_wrapper_eq.
    pose proof (memory_get_default_ttl (default_key args) clk c) as Hd1.
    destruct (ok_get maxsize (default_key args) clk c Hc)
      as (v & clk1 & c1 & Hget & Hc1).
    rewrite Hget in *. simpl in Hd1. rewrite Hd in Hd1.
    destruct (is_not_None v);
      [split; [exact Hc1|split; [exact Hd1|intros e He; discriminate He]]|].
    destruct (func args (clk1, u)) as [[res|e] [clk2 u2]] eqn:Hfunc.
    + destruct (memory_set_stores (default_key args) res Omitted clk2 c1)
        as (c3 & Hset & _ & Hd3 & _); [simpl; now rewrite Hd1|].
      pose proof (ok_set maxsize (default_key args) res Omitted clk2 c1 Hc1) as Hc3.
      rewrite Hset in *. simpl in Hc3. simpl.
      split; [exact Hc3|split; [congruence|intros e He; discriminate He]].
    + simpl. split; [exact Hc1|split; [exact Hd1|]].
      intros e' [= <-]. exists clk1. now rewrite Hfunc.
Qed.

End LruCache.

Lemma lru_cache_serves_repeated_calls_witness :
  let key := fun _ : unit => "key" in
  let c := fresh_memory 2 None in
  exists clk3 c3,
    lru_cache.wrapper (counting (PInt 7)) key tt (ticking_clock, (c, 0))
    = (Ok (PInt 7), (clk3, (c3, 1)))
    /\ forall (func' : unit -> M nat pyval) args' later u',
         key args' = key tt ->
         exists clk4 c4,
           lru_cache.wrapper func' key args' (later, (c3, u'))
           = (Ok (PInt 7), (clk4, (c4, u'))).
Proof.
  intros key c.
  apply (lru_cache_serves_repeated_calls key (counting (PInt 7)) tt ticking_clock
           c 0 ticking_clock c (PInt 7) ticking_clock 1);
    reflexivity.
Defined.
